(** * Brace balance checker: tools/analyze_template.py

    A shallow embedding of the script and the properties of its scan.

    The script reads a template, splits it into lines, and walks the lines
    once with a stack of open control blocks.  Two regular expressions are
    applied to every line with [re.search]; both are embedded below as terms
    of a small regular-expression syntax interpreted by a backtracking
    matcher that follows the search order of Python's [re] module (leftmost
    start position, alternatives left to right, greedy repetition).

    Text is modelled by [string] and [list ascii], an [ascii] standing for
    the code point of the same number: the development covers documents
    whose code points are all below 256.  Reading the file is left out:
    [main] takes the text of the file, [scan] its lines.  The compiled
    [pattern] of the script is never used and has no counterpart here. *)

From Stdlib Require Import List String Ascii Arith Bool Lia DecimalString Sorted.
Import ListNotations.

Local Open Scope list_scope.
Local Open Scope string_scope.
Local Open Scope nat_scope.

(** ** Character classes of Python's [re] on [str] patterns *)

Module CharClass.

(** [\s]: [str.isspace] restricted to code points below 256. *)
Definition is_space (c : ascii) : bool :=
  let n := nat_of_ascii c in
  ((9 <=? n) && (n <=? 13)) || ((28 <=? n) && (n <=? 32))
  || (n =? 133) || (n =? 160).

(** [\w]: alphanumeric code points and the underscore, below 256. *)
Definition is_word (c : ascii) : bool :=
  let n := nat_of_ascii c in
  ((48 <=? n) && (n <=? 57)) || ((65 <=? n) && (n <=? 90))
  || (n =? 95) || ((97 <=? n) && (n <=? 122))
  || (n =? 170) || (n =? 178) || (n =? 179) || (n =? 181)
  || (n =? 185) || (n =? 186) || ((188 <=? n) && (n <=? 190))
  || ((192 <=? n) && (n <=? 214)) || ((216 <=? n) && (n <=? 246))
  || (248 <=? n).

(** Line boundaries of [str.splitlines], below 256; a carriage return
    followed by a line feed counts as one boundary. *)
Definition is_linebreak (c : ascii) : bool :=
  let n := nat_of_ascii c in
  ((10 <=? n) && (n <=? 13)) || ((28 <=? n) && (n <=? 30)) || (n =? 133).

End CharClass.
Import CharClass.

(** ** Regular expressions and [re.search] *)

Module Re.

(** The fragment of the pattern language the script uses.  Repetition is
    only ever applied to a set of characters ([\s*], [[^\)]*]).  The
    script reads group 1 only, so that is the one group the matcher
    records; other parentheses are plain grouping. *)
Inductive regex : Type :=
| Eps
| Chr (c : ascii)
| StarSet (p : ascii -> bool)
| Bol
| WordB
| Cat (r1 r2 : regex)
| Alt (r1 r2 : regex)
| Opt (r : regex)
| Grp1 (r : regex).

(** What [group(1)] holds: [None] while the group has not taken part. *)
Definition capture := option (list ascii).

(** A continuation receives the character before the current position
    ([None] at the start of the string), the rest of the string and the
    capture so far. *)
Definition cont := option ascii -> list ascii -> capture -> option capture.

Definition word_at (c : option ascii) : bool :=
  match c with Some a => is_word a | None => false end.

(** Greedy [[set]*]: take as many characters as possible, give them back
    one at a time while the continuation fails. *)
Fixpoint star_set (p : ascii -> bool) (prev : option ascii)
    (s : list ascii) (cap : capture) (k : cont) : option capture :=
  match s with
  | c :: s' =>
      if p c then
        match star_set p (Some c) s' cap k with
        | Some m => Some m
        | None => k prev s cap
        end
      else k prev s cap
  | [] => k prev s cap
  end.

Fixpoint run (r : regex) (prev : option ascii) (s : list ascii)
    (cap : capture) (k : cont) : option capture :=
  match r with
  | Eps => k prev s cap
  | Chr c =>
      match s with
      | c' :: s' => if Ascii.eqb c c' then k (Some c') s' cap else None
      | [] => None
      end
  | StarSet p => star_set p prev s cap k
  | Bol => match prev with None => k prev s cap | Some _ => None end
  | WordB =>
      if xorb (word_at prev) (word_at (hd_error s)) then k prev s cap
      else None
  | Cat r1 r2 =>
      run r1 prev s cap (fun prev' s' cap' => run r2 prev' s' cap' k)
  | Alt r1 r2 =>
      match run r1 prev s cap k with
      | Some m => Some m
      | None => run r2 prev s cap k
      end
  | Opt r0 =>
      match run r0 prev s cap k with
      | Some m => Some m
      | None => k prev s cap
      end
  | Grp1 r0 =>
      run r0 prev s cap
        (fun prev' s' _ => k prev' s' (Some (firstn (List.length s - List.length s') s)))
  end.

(** The match is accepted wherever the pattern ends. *)
Definition accept : cont := fun _ _ cap => Some cap.

(** [re.search]: the first start position, left to right, at which the
    pattern matches; the result is the capture of that match. *)
Fixpoint search_at (r : regex) (prev : option ascii) (s : list ascii)
    : option capture :=
  match run r prev s None accept with
  | Some m => Some m
  | None =>
      match s with
      | [] => None
      | c :: s' => search_at r (Some c) s'
      end
  end.

Definition search (r : regex) (s : string) : option capture :=
  search_at r None (list_ascii_of_string s).

(** A literal word. *)
Fixpoint lit (w : list ascii) : regex :=
  match w with
  | [] => Eps
  | c :: w' => Cat (Chr c) (lit w')
  end.

Definition word (w : string) : regex := lit (list_ascii_of_string w).

End Re.
Import Re.

Declare Scope re_scope.
Delimit Scope re_scope with re.
Infix "+>" := Cat (at level 61, right associativity) : re_scope.
Infix "</>" := Alt (at level 62, right associativity) : re_scope.

(** ** The two patterns of the scan *)

(** [@(if|for|switch|case|empty|else)\b\s*(\([^\)]*\))?\s*\{] *)
Definition open_re : regex :=
  (Chr "@" +>
   Grp1 (word "if" </> word "for" </> word "switch" </> word "case"
         </> word "empty" </> word "else") +>
   WordB +>
   StarSet is_space +>
   Opt (Chr "(" +> StarSet (fun c => negb (Ascii.eqb c ")")) +> Chr ")") +>
   StarSet is_space +>
   Chr "{")%re.

(** [^\s*\}\s*(?:@else|@empty|@case)?] *)
Definition close_re : regex :=
  (Bol +>
   StarSet is_space +>
   Chr "}" +>
   StarSet is_space +>
   Opt (word "@else" </> word "@empty" </> word "@case"))%re.

(** [m = re.search(open, l)] followed by [m.group(1)]: the keyword of the
    leftmost opening directive of the line, if there is one. *)
Definition open_match (l : string) : option string :=
  match search open_re l with
  | Some (Some w) => Some (string_of_list_ascii w)
  | _ => None
  end.

(** The truth value of [re.search(close, l)]. *)
Definition close_match (l : string) : bool :=
  match search close_re l with
  | Some _ => true
  | None => false
  end.

(** ** The scan *)

(** An open block: its keyword and the number of the line that opened it. *)
Definition entry : Type := string * nat.

(** The program state: the list [stack], its last element being the top,
    and the lines printed so far. *)
Record state : Type := mkState {
  stack : list entry;
  out : list string
}.

Definition init : state := {| stack := []; out := [] |}.

(** [str(i)] for a line number. *)
Definition str (i : nat) : string := NilEmpty.string_of_uint (Nat.to_uint i).

(** [print(a, b)] writes its arguments separated by one space. *)
Definition print2 (a b : string) : string := a ++ " " ++ b.
Definition print3 (a b c : string) : string := a ++ " " ++ b ++ " " ++ c.

Definition unmatched_msg (i : nat) : string :=
  print2 "Unmatched closing brace at" (str i).

Definition opened_msg (e : entry) : string :=
  print3 (fst e) "opened at" (str (snd e)).

(** First [if] of the loop body: push on an opening directive. *)
Definition open_phase (i : nat) (l : string) (st : state) : state :=
  match open_match l with
  | Some tok => {| stack := (stack st ++ [(tok, i)])%list; out := out st |}
  | None => st
  end.

(** Second [if] of the loop body: on a closing line pop, or report the
    brace as unmatched when the stack is empty. *)
Definition close_phase (i : nat) (l : string) (st : state) : state :=
  if close_match l then
    match stack st with
    | [] => {| stack := stack st; out := (out st ++ [unmatched_msg i])%list |}
    | _ :: _ => {| stack := removelast (stack st); out := out st |}
    end
  else st.

Definition body (i : nat) (l : string) (st : state) : state :=
  close_phase i l (open_phase i l st).

(** [for i,l in enumerate(lines,1)], started at line number [i]. *)
Fixpoint loop (i : nat) (lines : list string) (st : state) : state :=
  match lines with
  | [] => st
  | l :: ls => loop (S i) ls (body i l st)
  end.

Definition all_closed_msg : string := "All control blocks closed".
Definition unclosed_msg : string := "Unclosed control blocks:".

(** The report after the loop. *)
Definition report (st : state) : list string :=
  match stack st with
  | [] => (out st ++ [all_closed_msg])%list
  | _ :: _ => (out st ++ unclosed_msg :: map opened_msg (stack st))%list
  end.

(** The whole run on the lines of a document: everything printed. *)
Definition scan (lines : list string) : list string :=
  report (loop 1 lines init).

(** [s.splitlines()]. *)
Fixpoint splitlines_aux (cur : list ascii) (s : list ascii) : list string :=
  match s with
  | [] =>
      match cur with
      | [] => []
      | _ :: _ => [string_of_list_ascii (rev cur)]
      end
  | c :: s' =>
      if is_linebreak c then
        string_of_list_ascii (rev cur) ::
        match c, s' with
        | "013"%char, "010"%char :: s'' => splitlines_aux [] s''
        | _, _ => splitlines_aux [] s'
        end
      else splitlines_aux (c :: cur) s'
  end.

Definition splitlines (s : string) : list string :=
  splitlines_aux [] (list_ascii_of_string s).

(** The script applied to the text of the file. *)
Definition main (s : string) : list string := scan (splitlines s).


(** ** Declarative reading of the patterns *)

Module ReSpec.

Local Open Scope list_scope.

(** The character before the position reached after reading [w]. *)
Fixpoint after (p : option ascii) (w : list ascii) : option ascii :=
  match w with
  | [] => p
  | c :: w' => after (Some c) w'
  end.

(** [matches r p w rest cap cap']: pattern [r] can read exactly [w] at a
    position preceded by [p] and followed by [rest], turning the capture
    [cap] into [cap']. *)
Inductive matches :
  regex -> option ascii -> list ascii -> list ascii ->
  capture -> capture -> Prop :=
| M_Eps p rest cap : matches Eps p [] rest cap cap
| M_Chr c p rest cap : matches (Chr c) p [c] rest cap cap
| M_Star f p w rest cap :
    Forall (fun c => f c = true) w -> matches (StarSet f) p w rest cap cap
| M_Bol rest cap : matches Bol None [] rest cap cap
| M_WordB p rest cap :
    xorb (word_at p) (word_at (hd_error rest)) = true ->
    matches WordB p [] rest cap cap
| M_Cat r1 r2 p w1 w2 rest cap cap1 cap2 :
    matches r1 p w1 (w2 ++ rest) cap cap1 ->
    matches r2 (after p w1) w2 rest cap1 cap2 ->
    matches (Cat r1 r2) p (w1 ++ w2) rest cap cap2
| M_AltL r1 r2 p w rest cap cap' :
    matches r1 p w rest cap cap' -> matches (Alt r1 r2) p w rest cap cap'
| M_AltR r1 r2 p w rest cap cap' :
    matches r2 p w rest cap cap' -> matches (Alt r1 r2) p w rest cap cap'
| M_OptSome r p w rest cap cap' :
    matches r p w rest cap cap' -> matches (Opt r) p w rest cap cap'
| M_OptNone r p rest cap : matches (Opt r) p [] rest cap cap
| M_Grp1 r p w rest cap cap' :
    matches r p w rest cap cap' -> matches (Grp1 r) p w rest cap (Some w).

End ReSpec.
Import ReSpec.

(** The six directive keywords. *)
Definition keywords : list string :=
  ["if"; "for"; "switch"; "case"; "empty"; "else"].

(** Every character of [s] is white space. *)
Definition all_space (s : string) : bool :=
  forallb is_space (list_ascii_of_string s).

(** [s] holds no closing parenthesis. *)
Definition no_rparen (s : string) : bool :=
  forallb (fun c => negb (Ascii.eqb c ")")) (list_ascii_of_string s).

(** [s] holds no [@]. *)
Definition no_at (s : string) : bool :=
  forallb (fun c => negb (Ascii.eqb c "@")) (list_ascii_of_string s).

(** [l.lstrip()]: the line without its leading white space. *)
Fixpoint lstrip (l : string) : string :=
  match l with
  | String c l' => if is_space c then lstrip l' else l
  | EmptyString => EmptyString
  end.

(** Entry [e] names a line of [d] that matches the opening pattern with the
    keyword of [e]. *)
Definition opened_by (d : list string) (e : entry) : Prop :=
  1 <= snd e /\
  exists l, nth_error d (snd e - 1) = Some l /\ open_match l = Some (fst e).

(** Lines of the document on which the opening pattern matches. *)
Definition opens (lines : list string) : nat :=
  List.length (filter (fun l => match open_match l with Some _ => true | None => false end) lines).

(** Lines of the document on which the closing pattern matches. *)
Definition closes (lines : list string) : nat :=
  List.length (filter close_match lines).

(** Whether the loop body run on line [l] in state [st] executes
    [stack.pop()]. *)
Definition pops_here (i : nat) (l : string) (st : state) : bool :=
  close_match l &&
  match stack (open_phase i l st) with [] => false | _ :: _ => true end.

(** Number of [stack.pop()] calls executed by the loop. *)
Fixpoint pops (i : nat) (lines : list string) (st : state) : nat :=
  match lines with
  | [] => 0
  | l :: ls => (if pops_here i l st then 1 else 0) + pops (S i) ls (body i l st)
  end.

(** ** The run as a transition relation *)

Module Exec.

Local Open Scope list_scope.

Inductive open_step (i : nat) (l : string) : state -> state -> Prop :=
| open_push st tok :
    open_match l = Some tok ->
    open_step i l st {| stack := stack st ++ [(tok, i)]; out := out st |}
| open_skip st :
    open_match l = None -> open_step i l st st.

Inductive close_step (i : nat) (l : string) : state -> state -> Prop :=
| close_pop st :
    close_match l = true -> stack st <> [] ->
    close_step i l st {| stack := removelast (stack st); out := out st |}
| close_unmatched st :
    close_match l = true -> stack st = [] ->
    close_step i l st
      {| stack := stack st; out := out st ++ [unmatched_msg i] |}
| close_skip st :
    close_match l = false -> close_step i l st st.

Inductive loop_steps : nat -> list string -> state -> state -> Prop :=
| loop_done i st : loop_steps i [] st st
| loop_line i l ls st st1 st2 st3 :
    open_step i l st st1 -> close_step i l st1 st2 ->
    loop_steps (S i) ls st2 st3 ->
    loop_steps i (l :: ls) st st3.

(** [runs lines o]: a run of the script on [lines] prints [o]. *)
Inductive runs (lines : list string) : list string -> Prop :=
| runs_intro st : loop_steps 1 lines init st -> runs lines (report st).

End Exec.

(** ** Further vocabulary for the properties of the scan *)

(** Properly nested documents: lines that match neither pattern, lines that
    match both (their own push is popped at once), and blocks made of an
    opening line, a nested part and a closing line. *)
Inductive balanced : list string -> Prop :=
| bal_nil : balanced []
| bal_plain l d :
    open_match l = None -> close_match l = false ->
    balanced d -> balanced (l :: d)
| bal_both l tok d :
    open_match l = Some tok -> close_match l = true ->
    balanced d -> balanced (l :: d)
| bal_block o tok inner c rest :
    open_match o = Some tok -> close_match o = false ->
    balanced inner ->
    open_match c = None -> close_match c = true ->
    balanced rest -> balanced (o :: inner ++ c :: rest)%list.

(** The entries of the opening lines of a document whose first line has
    number [i], in document order. *)
Fixpoint opening_lines (i : nat) (lines : list string) : list entry :=
  match lines with
  | [] => []
  | l :: ls =>
      match open_match l with
      | Some tok => (tok, i) :: opening_lines (S i) ls
      | None => opening_lines (S i) ls
      end
  end.

(** The numbers of the closing lines of a document whose first line has
    number [i], in document order. *)
Fixpoint closing_lines (i : nat) (lines : list string) : list nat :=
  match lines with
  | [] => []
  | l :: ls =>
      if close_match l then i :: closing_lines (S i) ls
      else closing_lines (S i) ls
  end.

(** Line [i] of [d] matches the closing pattern. *)
Definition closer_at (d : list string) (i : nat) : Prop :=
  1 <= i /\
  exists l, nth_error d (i - 1) = Some l /\ close_match l = true.

(** [s] holds a line boundary. *)
Definition has_linebreak (s : string) : bool :=
  existsb is_linebreak (list_ascii_of_string s).

(** The text made of the given lines, each followed by the terminator [t]. *)
Fixpoint unlines (t : string) (lines : list string) : string :=
  match lines with
  | [] => ""
  | l :: ls => l ++ t ++ unlines t ls
  end.

(** What follows a carriage return once the line feed paired with it, if
    there is one, is skipped. *)
Definition drop_lf (s : list ascii) : list ascii :=
  match s with
  | c :: s' => if Ascii.eqb c "010" then s' else s
  | [] => s
  end.

Definition lf : string := String "010" "".
Definition crlf : string := String "013" (String "010" "").

(** ** The documents of the specification's scenarios *)

Definition if_doc : list string :=
  ["@if (x) {"; "  text"; "}"].

Definition else_doc : list string :=
  ["@if (x) {"; "} @else {"; "}"].

Definition switch_doc : list string :=
  ["@switch (x) {"; "@case 'a' {"; "text"; "} @case"; "} "].

(** ** Proof automation *)

Ltac inv H := inversion H; subst; clear H.

Ltac inv_matches :=
  repeat match goal with
    | H : matches Eps _ _ _ _ _ |- _ => inv H
    | H : matches (Chr _) _ _ _ _ _ |- _ => inv H
    | H : matches (StarSet _) _ _ _ _ _ |- _ => inv H
    | H : matches Bol _ _ _ _ _ |- _ => inv H
    | H : matches WordB _ _ _ _ _ |- _ => inv H
    | H : matches (Cat _ _) _ _ _ _ _ |- _ => inv H
    | H : matches (Alt _ _) _ _ _ _ _ |- _ => inv H
    | H : matches (Opt _) _ _ _ _ _ |- _ => inv H
    | H : matches (Grp1 _) _ _ _ _ _ |- _ => inv H
    end.

Ltac each_keyword H :=
  simpl in H;
  destruct H as [<-|[<-|[<-|[<-|[<-|[<-|[]]]]]]].

(** ** The matcher against the declarative reading *)

Section Matcher.

Local Open Scope list_scope.

Lemma after_app (w1 w2 : list ascii) :
  forall p, after p (w1 ++ w2) = after (after p w1) w2.
Proof.
  induction w1 as [|c w1 IH]; intros p; simpl; [reflexivity | apply IH].
Qed.

Lemma after_cons_some (w : list ascii) :
  forall c p, exists c', after p (c :: w) = Some c'.
Proof.
  induction w as [|c0 w IH]; intros c p; simpl.
  - now exists c.
  - apply (IH c0 (Some c)).
Qed.

Lemma firstn_consumed (w rest : list ascii) :
  firstn (List.length (w ++ rest) - List.length rest) (w ++ rest) = w.
Proof.
  rewrite length_app.
  replace (List.length w + List.length rest - List.length rest)
    with (List.length w) by lia.
  induction w as [|c w IH]; simpl.
  - reflexivity.
  - now rewrite IH.
Qed.

Lemma star_set_sound (f : ascii -> bool) :
  forall s p cap k m,
    star_set f p s cap k = Some m ->
    exists w rest,
      s = w ++ rest /\ Forall (fun c => f c = true) w /\
      k (after p w) rest cap = Some m.
Proof.
  induction s as [|c s IH]; intros p cap k m H; simpl in H.
  - exists [], []. auto.
  - destruct (f c) eqn:Hc.
    + destruct (star_set f (Some c) s cap k) as [m0|] eqn:Hs.
      * inversion H; subst m0.
        destruct (IH _ _ _ _ Hs) as (w & rest & -> & Hw & Hk).
        exists (c :: w), rest. auto.
      * exists [], (c :: s). auto.
    + exists [], (c :: s). auto.
Qed.

Lemma star_set_complete (f : ascii -> bool) :
  forall w p rest cap k,
    Forall (fun c => f c = true) w ->
    k (after p w) rest cap <> None ->
    star_set f p (w ++ rest) cap k <> None.
Proof.
  induction w as [|c w IH]; intros p rest cap k Hw Hk; simpl in *.
  - destruct rest as [|c s]; simpl; [assumption|].
    destruct (f c); [|assumption].
    destruct (star_set f (Some c) s cap k); [discriminate | assumption].
  - inversion Hw as [|? ? Hc Hw']; subst. rewrite Hc.
    specialize (IH (Some c) rest cap k Hw' Hk).
    destruct (star_set f (Some c) (w ++ rest) cap k);
      [discriminate | contradiction].
Qed.

(** Whatever the matcher finds is a match of the declarative reading. *)
Lemma run_sound (r : regex) :
  forall p s cap k m,
    run r p s cap k = Some m ->
    exists w rest cap',
      s = w ++ rest /\ matches r p w rest cap cap' /\
      k (after p w) rest cap' = Some m.
Proof.
  induction r as [ | c | f | | | r1 IH1 r2 IH2 | r1 IH1 r2 IH2 | r IH | r IH];
    intros p s cap k m H; simpl in H.
  - exists [], s, cap. repeat split; [constructor | assumption].
  - destruct s as [|c' s]; [discriminate|].
    destruct (Ascii.eqb c c') eqn:E; [|discriminate].
    apply Ascii.eqb_eq in E; subst c'.
    exists [c], s, cap. repeat split; [constructor | assumption].
  - destruct (star_set_sound _ _ _ _ _ _ H) as (w & rest & -> & Hw & Hk).
    exists w, rest, cap. repeat split; [now constructor | assumption].
  - destruct p; [discriminate|].
    exists [], s, cap. repeat split; [constructor | assumption].
  - destruct (xorb _ _) eqn:E; [|discriminate].
    exists [], s, cap. repeat split; [now constructor | assumption].
  - destruct (IH1 _ _ _ _ _ H) as (w1 & rest1 & cap1 & -> & M1 & H2).
    destruct (IH2 _ _ _ _ _ H2) as (w2 & rest & cap2 & -> & M2 & Hk).
    exists (w1 ++ w2), rest, cap2. rewrite after_app, app_assoc.
    repeat split; [econstructor; eassumption | assumption].
  - destruct (run r1 p s cap k) as [m0|] eqn:E.
    + inversion H; subst m0.
      destruct (IH1 _ _ _ _ _ E) as (w & rest & cap' & -> & M & Hk).
      exists w, rest, cap'. repeat split; [now apply M_AltL | assumption].
    + destruct (IH2 _ _ _ _ _ H) as (w & rest & cap' & -> & M & Hk).
      exists w, rest, cap'. repeat split; [now apply M_AltR | assumption].
  - destruct (run r p s cap k) as [m0|] eqn:E.
    + inversion H; subst m0.
      destruct (IH _ _ _ _ _ E) as (w & rest & cap' & -> & M & Hk).
      exists w, rest, cap'. repeat split; [now apply M_OptSome | assumption].
    + exists [], s, cap. repeat split; [apply M_OptNone | assumption].
  - destruct (IH _ _ _ _ _ H) as (w & rest & cap' & -> & M & Hk).
    rewrite firstn_consumed in Hk.
    exists w, rest, (Some w). repeat split; [econstructor; eassumption | assumption].
Qed.

(** Wherever the declarative reading has a match that the continuation
    accepts, the matcher finds some match. *)
Lemma run_complete (r : regex) p w rest cap cap' :
  matches r p w rest cap cap' ->
  forall k, k (after p w) rest cap' <> None ->
            run r p (w ++ rest) cap k <> None.
Proof.
  induction 1 as
    [ p rest cap | c p rest cap | f p w rest cap Hw | rest cap
    | p rest cap Hb | r1 r2 p w1 w2 rest cap cap1 cap2 _ IH1 _ IH2
    | r1 r2 p w rest cap cap' _ IH | r1 r2 p w rest cap cap' _ IH
    | r p w rest cap cap' _ IH | r p rest cap | r p w rest cap cap' _ IH ];
    intros k Hk; simpl in *.
  - assumption.
  - now rewrite Ascii.eqb_refl.
  - now apply star_set_complete.
  - assumption.
  - now rewrite Hb.
  - rewrite <- app_assoc. apply IH1. apply IH2.
    now rewrite <- after_app.
  - specialize (IH k Hk).
    destruct (run r1 p (w ++ rest) cap k); [discriminate | contradiction].
  - destruct (run r1 p (w ++ rest) cap k); [discriminate | now apply IH].
  - specialize (IH k Hk).
    destruct (run r p (w ++ rest) cap k); [discriminate | contradiction].
  - destruct (run r p rest cap k); [discriminate | assumption].
  - apply IH. now rewrite firstn_consumed.
Qed.

Lemma search_at_sound (r : regex) :
  forall s p m,
    search_at r p s = Some m ->
    exists pre suf,
      s = pre ++ suf /\ run r (after p pre) suf None accept = Some m.
Proof.
  induction s as [|c s IH]; intros p m H; simpl in H.
  - destruct (run r p [] None accept) eqn:E; [|discriminate].
    inversion H; subst. exists [], []. auto.
  - destruct (run r p (c :: s) None accept) eqn:E.
    + inversion H; subst. exists [], (c :: s). auto.
    + destruct (IH _ _ H) as (pre & suf & -> & Hr).
      exists (c :: pre), suf. auto.
Qed.

Lemma search_at_complete (r : regex) :
  forall pre p suf,
    run r (after p pre) suf None accept <> None ->
    search_at r p (pre ++ suf) <> None.
Proof.
  induction pre as [|c pre IH]; intros p suf H; simpl in *.
  - destruct suf; simpl;
      destruct (run r p _ None accept); solve [discriminate | contradiction].
  - destruct (run r p (c :: pre ++ suf) None accept); [discriminate|].
    now apply IH.
Qed.

End Matcher.

(** ** What the two patterns accept *)

Section Patterns.

Local Open Scope list_scope.

Lemma list_ascii_of_string_app (a b : string) :
  list_ascii_of_string (a ++ b)%string =
  list_ascii_of_string a ++ list_ascii_of_string b.
Proof.
  induction a as [|c a IH]; simpl; [reflexivity | now rewrite IH].
Qed.

Lemma space_not_word (c : ascii) : is_space c = true -> is_word c = false.
Proof.
  destruct c as [[] [] [] [] [] [] [] []]; vm_compute; intros H;
    solve [reflexivity | discriminate H].
Qed.

Lemma matches_lit (w : list ascii) :
  forall p rest cap, matches (lit w) p w rest cap cap.
Proof.
  induction w as [|c w IH]; intros p rest cap; simpl.
  - constructor.
  - change (c :: w) with ([c] ++ w).
    econstructor; [constructor | apply IH].
Qed.

Lemma matches_chr_then c r p w rest cap cap' :
  matches r (Some c) w rest cap cap' ->
  matches (Cat (Chr c) r) p (c :: w) rest cap cap'.
Proof.
  intros H. change (c :: w) with ([c] ++ w).
  econstructor; [constructor | exact H].
Qed.

Lemma matches_empty_then r1 r2 p w rest cap cap1 cap2 :
  matches r1 p [] (w ++ rest) cap cap1 ->
  matches r2 p w rest cap1 cap2 ->
  matches (Cat r1 r2) p w rest cap cap2.
Proof.
  intros H1 H2. change w with ([] ++ w).
  econstructor; [exact H1 | exact H2].
Qed.

(** A match of the opening pattern starts with [@] and a keyword, and the
    keyword is what group 1 holds. *)
Lemma open_re_matches_inv p w rest cap' :
  matches open_re p w rest None cap' ->
  exists kw tail,
    In kw keywords /\ cap' = Some (list_ascii_of_string kw) /\
    w = "@"%char :: list_ascii_of_string kw ++ tail.
Proof.
  intros H. cbv [open_re word lit list_ascii_of_string] in H.
  inv_matches;
    match goal with
    | |- exists kw tail, _ /\ Some ?k = _ /\ _ =>
        exists (string_of_list_ascii k); eexists;
        split; [simpl; tauto | split; [reflexivity|]];
        simpl; rewrite <- ?app_assoc; simpl; reflexivity
    end.
Qed.

Lemma keyword_ends_word kw p :
  In kw keywords -> word_at (after p (list_ascii_of_string kw)) = true.
Proof. intros H. each_keyword H; reflexivity. Qed.

Lemma matches_keyword kw p rest cap :
  In kw keywords ->
  matches (word "if" </> word "for" </> word "switch" </> word "case"
           </> word "empty" </> word "else")%re
    p (list_ascii_of_string kw) rest cap cap.
Proof.
  intros H. each_keyword H;
    repeat (first [ apply M_AltL; apply matches_lit | apply M_AltR ]);
    apply matches_lit.
Qed.

(** The shapes the opening pattern accepts at a position. *)
Lemma open_re_matches_intro p kw ws1 grp ws2 post :
  In kw keywords ->
  Forall (fun c => is_space c = true) ws1 ->
  Forall (fun c => is_space c = true) ws2 ->
  (grp = [] \/
   exists inner, grp = "("%char :: inner ++ [")"%char] /\
     Forall (fun c => negb (Ascii.eqb c ")") = true) inner) ->
  matches open_re p
    ("@"%char :: list_ascii_of_string kw ++ ws1 ++ grp ++ ws2 ++ ["{"%char])
    post None (Some (list_ascii_of_string kw)).
Proof.
  intros Hkw H1 H2 Hgrp. unfold open_re.
  apply matches_chr_then.
  apply M_Cat with (cap1 := Some (list_ascii_of_string kw)).
  { apply M_Grp1 with (cap' := None). now apply matches_keyword. }
  apply matches_empty_then with (cap1 := Some (list_ascii_of_string kw)).
  { constructor. rewrite (keyword_ends_word kw _ Hkw). simpl.
    destruct ws1 as [|c ws1]; simpl.
    - destruct Hgrp as [->|(inner & -> & _)]; simpl; [|reflexivity].
      destruct ws2 as [|c ws2]; simpl; [reflexivity|].
      inversion H2; subst. now rewrite space_not_word.
    - inversion H1; subst. now rewrite space_not_word. }
  apply M_Cat with (cap1 := Some (list_ascii_of_string kw)); [now constructor|].
  apply M_Cat with (cap1 := Some (list_ascii_of_string kw)).
  { destruct Hgrp as [->|(inner & -> & Hin)].
    - apply M_OptNone.
    - apply M_OptSome. apply matches_chr_then.
      apply M_Cat with (cap1 := Some (list_ascii_of_string kw));
        [now constructor | constructor]. }
  apply M_Cat with (cap1 := Some (list_ascii_of_string kw));
    [now constructor | constructor].
Qed.

Lemma string_of_list_inj (a b : string) :
  list_ascii_of_string a = list_ascii_of_string b -> a = b.
Proof.
  intros H. rewrite <- (string_of_list_ascii_of_string a),
    <- (string_of_list_ascii_of_string b). now rewrite H.
Qed.

(** The keyword reported by [open_match] is one of the six. *)
Lemma open_match_keyword (l tok : string) :
  open_match l = Some tok -> In tok keywords.
Proof.
  unfold open_match, search. intros H.
  destruct (search_at open_re None (list_ascii_of_string l)) as [[w|]|] eqn:E;
    try discriminate.
  inversion H; subst tok; clear H.
  destruct (search_at_sound _ _ _ _ E) as (pre & suf & _ & Hr).
  destruct (run_sound _ _ _ _ _ _ Hr) as (w0 & rest & cap' & _ & M & Hk).
  unfold accept in Hk. inversion Hk; subst cap'.
  destruct (open_re_matches_inv _ _ _ _ M) as (kw & tail & Hkw & Hc & _).
  inversion Hc; subst w. now rewrite string_of_list_ascii_of_string.
Qed.

(** Positions that do not hold [@] cannot start an opening match. *)
Lemma search_open_skip (pre : list ascii) :
  forall p suf,
    Forall (fun c => negb (Ascii.eqb c "@") = true) pre ->
    search_at open_re p (pre ++ suf) = search_at open_re (after p pre) suf.
Proof.
  induction pre as [|c pre IH]; intros p suf H; [reflexivity|].
  inversion H as [|? ? Hc Hpre]; subst.
  cbn [app after search_at]. rewrite <- (IH (Some c) suf Hpre).
  unfold open_re at 1. cbn [run].
  rewrite Ascii.eqb_sym. apply negb_true_iff in Hc. now rewrite Hc.
Qed.

(** No keyword is the beginning of a different one. *)
Lemma keyword_prefix_free kw1 kw2 t1 t2 :
  In kw1 keywords -> In kw2 keywords ->
  list_ascii_of_string kw1 ++ t1 = list_ascii_of_string kw2 ++ t2 ->
  kw1 = kw2.
Proof.
  intros H1 H2 E. each_keyword H1; each_keyword H2;
    solve [reflexivity | discriminate E].
Qed.

(** The closing pattern can only match at the start of the line. *)
Lemma search_close_later (s : list ascii) :
  forall c, search_at close_re (Some c) s = None.
Proof.
  induction s as [|c' s IH]; intros c; simpl; [reflexivity | apply IH].
Qed.

Lemma close_re_matches_inv w rest cap cap' :
  matches close_re None w rest cap cap' ->
  exists ws tail,
    Forall (fun c => is_space c = true) ws /\ w = ws ++ "}"%char :: tail.
Proof.
  intros H. cbv [close_re] in H.
  inversion H as [| | | | | ? ? ? w1 w2 ? ? ? ? Hb H1 | | | | |]; subst.
  inversion Hb; subst.
  inversion H1 as [| | | | | ? ? ? ws w3 ? ? ? ? Hs H2 | | | | |]; subst.
  inversion Hs; subst.
  inversion H2 as [| | | | | ? ? ? w4 w5 ? ? ? ? Hc _ | | | | |]; subst.
  inversion Hc; subst.
  exists ws, w5. split; [assumption | reflexivity].
Qed.

Lemma close_re_matches_intro ws rest cap :
  Forall (fun c => is_space c = true) ws ->
  matches close_re None (ws ++ ["}"%char]) rest cap cap.
Proof.
  intros H. unfold close_re.
  apply matches_empty_then with (cap1 := cap); [constructor|].
  apply M_Cat with (cap1 := cap); [now constructor|].
  replace ["}"%char] with (["}"%char] ++ [] ++ []) by reflexivity.
  apply M_Cat with (cap1 := cap); [constructor|].
  apply M_Cat with (cap1 := cap); [now constructor | apply M_OptNone].
Qed.

(** The closing pattern matches the lines made of white space, a closing
    brace, and anything after it. *)
Lemma close_match_shape (l : string) :
  close_match l = true <->
  exists ws tail,
    Forall (fun c => is_space c = true) ws /\
    list_ascii_of_string l = ws ++ "}"%char :: tail.
Proof.
  unfold close_match, search. split.
  - destruct (search_at close_re None (list_ascii_of_string l)) as [m|] eqn:E;
      [intros _ | discriminate].
    destruct (search_at_sound _ _ _ _ E) as (pre & suf & Hl & Hr).
    destruct pre as [|c pre].
    + cbn [after app] in Hl, Hr.
      destruct (run_sound _ _ _ _ _ _ Hr) as (w & rest & cap' & Hs & M & _).
      destruct (close_re_matches_inv _ _ _ _ M) as (ws & tail & Hws & ->).
      exists ws, (tail ++ rest). split; [assumption|].
      rewrite Hl, Hs, <- app_assoc. reflexivity.
    + exfalso. destruct (after_cons_some pre c None) as (c' & Hc).
      rewrite Hc in Hr. discriminate Hr.
  - intros (ws & tail & Hws & Hl). rewrite Hl.
    assert (Hn : search_at close_re None (ws ++ "}"%char :: tail) <> None).
    { apply (search_at_complete close_re [] None). cbn [after].
      assert (Hm := close_re_matches_intro ws tail None Hws).
      apply run_complete with (k := accept) in Hm; [|discriminate].
      rewrite <- app_assoc in Hm. exact Hm. }
    destruct (search_at close_re None (ws ++ "}"%char :: tail));
      [reflexivity | contradiction].
Qed.

End Patterns.

(** ** The patterns on sample lines *)

Section Samples.

Local Open Scope list_scope.

Example open_if : open_match "@if (x) {" = Some "if".
Proof. reflexivity. Qed.

Example open_for_track : open_match "@for (a of b; track a) {" = Some "for".
Proof. reflexivity. Qed.

Example open_no_space : open_match "@if(x){ }" = Some "if".
Proof. reflexivity. Qed.

Example open_else_tight : open_match "@else{" = Some "else".
Proof. reflexivity. Qed.

Example open_word_boundary : open_match "@iffy {" = None.
Proof. reflexivity. Qed.

Example open_nested_parens : open_match "@if (f(x)) {" = None.
Proof. reflexivity. Qed.

Example open_unbalanced_parens : open_match "@if (f(x) {" = Some "if".
Proof. reflexivity. Qed.

Example open_case_literal : open_match "@case 'a' {" = None.
Proof. reflexivity. Qed.

Example open_leftmost : open_match "@if (x) { @for (y) {" = Some "if".
Proof. reflexivity. Qed.

Example open_second_directive : open_match "@if @for {" = Some "for".
Proof. reflexivity. Qed.

Example open_inside_text : open_match "x@if {" = Some "if".
Proof. reflexivity. Qed.

Example close_brace : close_match "}" = true.
Proof. reflexivity. Qed.

Example close_indented : close_match "  }}" = true.
Proof. reflexivity. Qed.

Example close_then_else : close_match "} @else {" = true.
Proof. reflexivity. Qed.

Example close_not_first : close_match "a }" = false.
Proof. reflexivity. Qed.

Example close_after_directive : close_match "@if(x){ }" = false.
Proof. reflexivity. Qed.

Example str_sample : str 120 = "120".
Proof. reflexivity. Qed.

Example splitlines_sample :
  splitlines
    (String "a" (String "010" (String "010" (String "b" (String "013"
      (String "010" (String "c" (String "010" ""))))))))
  = ["a"; ""; "b"; "c"].
Proof. reflexivity. Qed.

Example scan_if_doc : scan if_doc = ["All control blocks closed"].
Proof. reflexivity. Qed.

Example scan_unclosed_if :
  scan ["@if (x) {"; "  text"] = ["Unclosed control blocks:"; "if opened at 1"].
Proof. reflexivity. Qed.

Example main_else_doc :
  main ("@if (x) {" ++ String "010" "} @else {" ++ String "010" "}")%string
  = ["All control blocks closed"].
Proof. reflexivity. Qed.

End Samples.

(** ** The loop *)

Section Loop.

Local Open Scope list_scope.

Lemma loop_app (l1 l2 : list string) :
  forall i st,
    loop i (l1 ++ l2) st = loop (i + List.length l1) l2 (loop i l1 st).
Proof.
  induction l1 as [|l l1 IH]; intros i st; simpl.
  - now rewrite Nat.add_0_r.
  - rewrite IH. f_equal. lia.
Qed.

(** The state after the first lines of a document is the state the scan
    of the whole document passes through. *)
Lemma loop_prefix (pre post : list string) :
  loop 1 (pre ++ post) init =
  loop (S (List.length pre)) post (loop 1 pre init).
Proof. now rewrite loop_app. Qed.

Lemma loop_snoc (pre : list string) (l : string) :
  loop 1 (pre ++ [l]) init =
  body (S (List.length pre)) l (loop 1 pre init).
Proof. now rewrite loop_prefix. Qed.

(** Induction over the lines read so far. *)
Lemma loop_prefix_ind (P : list string -> state -> Prop) :
  P [] init ->
  (forall pre l st,
      st = loop 1 pre init -> P pre st ->
      P (pre ++ [l]) (body (S (List.length pre)) l st)) ->
  forall d, P d (loop 1 d init).
Proof.
  intros H0 Hstep d. induction d as [|l pre IH] using rev_ind.
  - exact H0.
  - rewrite loop_snoc. now apply Hstep.
Qed.

Lemma pops_app (l1 l2 : list string) :
  forall i st,
    pops i (l1 ++ l2) st =
    pops i l1 st + pops (i + List.length l1) l2 (loop i l1 st).
Proof.
  induction l1 as [|l l1 IH]; intros i st; simpl.
  - now rewrite Nat.add_0_r.
  - rewrite IH. replace (S i + List.length l1) with (i + S (List.length l1)) by lia.
    lia.
Qed.

Lemma opens_snoc (pre : list string) (l : string) :
  opens (pre ++ [l]) =
  opens pre + match open_match l with Some _ => 1 | None => 0 end.
Proof.
  unfold opens. rewrite filter_app, length_app. simpl.
  destruct (open_match l); reflexivity.
Qed.

Lemma closes_snoc (pre : list string) (l : string) :
  closes (pre ++ [l]) = closes pre + (if close_match l then 1 else 0).
Proof.
  unfold closes. rewrite filter_app, length_app. simpl.
  destruct (close_match l); reflexivity.
Qed.

Lemma stack_open_phase i l st :
  stack (open_phase i l st) =
  stack st ++ match open_match l with Some tok => [(tok, i)] | None => [] end.
Proof.
  unfold open_phase. destruct (open_match l); simpl;
    [reflexivity | now rewrite app_nil_r].
Qed.

Lemma out_open_phase i l st : out (open_phase i l st) = out st.
Proof. unfold open_phase. now destruct (open_match l). Qed.

Lemma nonempty_snoc {A} (l : list A) :
  l <> [] -> exists l' a, l = l' ++ [a].
Proof.
  intros H. destruct (exists_last H) as (l' & a & ->). now exists l', a.
Qed.

(** The three outcomes of the closing check. *)
Lemma close_phase_cases i l st :
  (close_match l = false /\ close_phase i l st = st) \/
  (close_match l = true /\ stack st = [] /\
   close_phase i l st =
     {| stack := []; out := out st ++ [unmatched_msg i] |}) \/
  (close_match l = true /\
   exists rest top, stack st = rest ++ [top] /\
     close_phase i l st = {| stack := rest; out := out st |}).
Proof.
  unfold close_phase. destruct (close_match l); [|now left].
  right. destruct (stack st) as [|e s] eqn:E.
  - left. auto.
  - right. split; [reflexivity|].
    destruct (nonempty_snoc (e :: s)) as (rest & top & Hs); [discriminate|].
    exists rest, top. split; [assumption|].
    now rewrite Hs, removelast_last.
Qed.

(** Only unmatched-brace messages are printed inside the loop. *)
Lemma out_only_unmatched (d : list string) :
  Forall (fun m => exists i, m = unmatched_msg i) (out (loop 1 d init)).
Proof.
  apply (loop_prefix_ind
           (fun _ st => Forall (fun m => exists i, m = unmatched_msg i) (out st))).
  - constructor.
  - intros pre l st _ IH. unfold body.
    destruct (close_phase_cases (S (List.length pre)) l (open_phase (S (List.length pre)) l st))
      as [(_ & ->)|[(_ & _ & ->)|(_ & rest & top & _ & ->)]];
      simpl; rewrite ?out_open_phase; try assumption.
    apply Forall_app. split; [assumption|].
    constructor; [now eexists | constructor].
Qed.

(** Every keyword on the stack is one of the six. *)
Lemma stack_keywords (d : list string) :
  Forall (fun e => In (fst e) keywords) (stack (loop 1 d init)).
Proof.
  apply (loop_prefix_ind
           (fun _ st => Forall (fun e => In (fst e) keywords) (stack st))).
  - constructor.
  - intros pre l st _ IH. unfold body.
    assert (Ho : Forall (fun e => In (fst e) keywords)
                   (stack (open_phase (S (List.length pre)) l st))).
    { rewrite stack_open_phase. apply Forall_app. split; [assumption|].
      destruct (open_match l) as [tok|] eqn:E; constructor;
        [exact (open_match_keyword _ _ E) | constructor]. }
    destruct (close_phase_cases (S (List.length pre)) l (open_phase (S (List.length pre)) l st))
      as [(_ & ->)|[(_ & _ & ->)|(_ & rest & top & Hs & ->)]];
      simpl; [assumption | constructor |].
    rewrite Hs in Ho. now apply Forall_app in Ho.
Qed.

Lemma unmatched_not_all_closed i : unmatched_msg i <> all_closed_msg.
Proof. discriminate. Qed.

Lemma opened_not_all_closed e :
  In (fst e) keywords -> opened_msg e <> all_closed_msg.
Proof.
  destruct e as [tok i]. simpl. intros H. each_keyword H; discriminate.
Qed.

End Loop.

(** ** The end-of-scan report *)

Section Report.

Local Open Scope list_scope.

(** C1, as stated, fails on the one-line document [}]: the closing
    message is printed although an unmatched closing brace was reported
    during the scan. *)
Lemma all_closed_despite_unmatched :
  ~ (In all_closed_msg (scan ["}"]) <->
     stack (loop 1 ["}"] init) = [] /\ out (loop 1 ["}"] init) = []).
Proof.
  intros [H _].
  assert (Hin : In all_closed_msg (scan ["}"])) by (vm_compute; tauto).
  destruct (H Hin) as [_ Ho]. vm_compute in Ho. discriminate Ho.
Qed.

(** C1 (amended): [All control blocks closed] is printed if and only if
    the stack is empty after the final line, whether or not unmatched
    closing braces were reported; it is then printed once, as the last
    line of the output. *)
Theorem all_closed_iff_stack_empty (d : list string) :
  (In all_closed_msg (scan d) <-> stack (loop 1 d init) = []) /\
  (stack (loop 1 d init) = [] ->
   scan d = out (loop 1 d init) ++ [all_closed_msg] /\
   ~ In all_closed_msg (out (loop 1 d init))).
Proof.
  assert (Hout : ~ In all_closed_msg (out (loop 1 d init))).
  { intros Hin. pose proof (out_only_unmatched d) as Hu.
    rewrite Forall_forall in Hu. destruct (Hu _ Hin) as (i & Hi).
    exact (unmatched_not_all_closed i (eq_sym Hi)). }
  unfold scan, report.
  destruct (stack (loop 1 d init)) as [|e s] eqn:E.
  - repeat split; auto using in_or_app, in_eq.
  - split; [|discriminate]. split; [|discriminate].
    intros Hin. exfalso.
    apply in_app_or in Hin. destruct Hin as [Hin|[Hin|Hin]].
    + exact (Hout Hin).
    + discriminate Hin.
    + apply in_map_iff in Hin. destruct Hin as (e' & He' & Hin).
      pose proof (stack_keywords d) as Hk. rewrite E, Forall_forall in Hk.
      exact (opened_not_all_closed e' (Hk _ Hin) He').
Qed.

Lemma all_closed_iff_stack_empty_witness :
  stack (loop 1 ["@if (x) {"; "}"; "}"] init) = [] /\
  scan ["@if (x) {"; "}"; "}"] =
    ["Unmatched closing brace at 3"; "All control blocks closed"].
Proof.
  split; [reflexivity|].
  destruct (all_closed_iff_stack_empty ["@if (x) {"; "}"; "}"]) as [_ H].
  destruct (H eq_refl) as [-> _]. reflexivity.
Defined.

End Report.

(** ** The scenarios of the specification *)

Section Scenarios.

Local Open Scope list_scope.

(** C2, as stated, fails: the scan of the five-line document does not
    print the unclosed-blocks listing. *)
Lemma switch_doc_not_unclosed :
  scan switch_doc <> ["Unclosed control blocks:"; "switch opened at 1"].
Proof. vm_compute. discriminate. Qed.

(** C2 (amended): on the five-line document the [@switch (x) {] line
    pushes [(switch, 1)], the [} @case] line pops one entry, the stack is
    empty after the final line, and the output ends with
    [All control blocks closed]; no unclosed-blocks listing is printed. *)
Theorem switch_doc_ends_all_closed :
  stack (loop 1 ["@switch (x) {"] init) = [("switch", 1)] /\
  close_match "} @case" = true /\
  List.length (stack (loop 1 (firstn 4 switch_doc) init)) + 1 =
    List.length (stack (loop 1 (firstn 3 switch_doc) init)) /\
  stack (loop 1 switch_doc init) = [] /\
  last (scan switch_doc) "" = "All control blocks closed" /\
  ~ In "Unclosed control blocks:" (scan switch_doc).
Proof.
  repeat split; try reflexivity.
  vm_compute. intros [H|[H|[]]]; discriminate H.
Qed.

(** C4: the document [@if (x) {] / [} @else {] / [}] prints exactly
    [All control blocks closed]; on its second line the opening check
    pushes an [else] entry and the closing check then pops one entry. *)
Theorem else_doc_all_closed :
  scan else_doc = ["All control blocks closed"] /\
  loop 1 ["@if (x) {"] init = {| stack := [("if", 1)]; out := [] |} /\
  open_phase 2 "} @else {" {| stack := [("if", 1)]; out := [] |} =
    {| stack := [("if", 1); ("else", 2)]; out := [] |} /\
  close_phase 2 "} @else {" {| stack := [("if", 1); ("else", 2)]; out := [] |} =
    {| stack := [("if", 1)]; out := [] |} /\
  loop 1 else_doc init = {| stack := []; out := [] |} /\
  opens else_doc = 2 /\ pops 1 else_doc init = 2.
Proof. repeat split; reflexivity. Qed.

End Scenarios.

(** ** Stack discipline *)

Section StackDiscipline.

Local Open Scope list_scope.

Lemma pops_here_cases i l st :
  (pops_here i l st = true /\
   close_match l = true /\ stack (open_phase i l st) <> []) \/
  (pops_here i l st = false /\
   (close_match l = false \/ stack (open_phase i l st) = [])).
Proof.
  unfold pops_here. destruct (close_match l); simpl; [|now right; auto].
  destruct (stack (open_phase i l st)); [right | left]; auto.
  repeat split; discriminate.
Qed.

(** One line: the stack grows by the push and shrinks by the pop, and a
    closing match that does not pop prints one message. *)
Lemma body_balance i l st :
  List.length (stack (body i l st)) + (if pops_here i l st then 1 else 0) =
    List.length (stack st) +
    match open_match l with Some _ => 1 | None => 0 end /\
  (if pops_here i l st then 1 else 0) + List.length (out (body i l st)) =
    List.length (out st) + (if close_match l then 1 else 0).
Proof.
  unfold body.
  assert (Hlen : List.length (stack (open_phase i l st)) =
                 List.length (stack st) +
                 match open_match l with Some _ => 1 | None => 0 end).
  { rewrite stack_open_phase, length_app. now destruct (open_match l). }
  destruct (pops_here_cases i l st) as [(-> & Hc & Hs)|(-> & Hs)];
    destruct (close_phase_cases i l (open_phase i l st))
      as [(Hc' & ->)|[(Hc' & Hs' & ->)|(Hc' & rest & top & Hs' & ->)]];
    rewrite ?out_open_phase; simpl; rewrite ?Hc';
    try congruence.
  - rewrite Hs', length_app in Hlen. simpl in Hlen. lia.
  - lia.
  - rewrite Hs' in Hlen. simpl in Hlen. rewrite length_app. simpl. lia.
  - destruct Hs as [Hs|Hs]; [congruence|].
    rewrite Hs' in Hs. now destruct rest.
Qed.

(** C5: after any number of lines of any document, the stack size plus
    the number of pops performed equals the number of lines that matched
    the opening pattern; every closing match either popped or printed an
    unmatched-closer message; and a closing match that finds the stack
    empty prints the message, pops nothing and leaves the stack empty. *)
Theorem stack_size_invariant (pre post : list string) :
  loop 1 (pre ++ post) init =
    loop (S (List.length pre)) post (loop 1 pre init) /\
  List.length (stack (loop 1 pre init)) + pops 1 pre init = opens pre /\
  pops 1 pre init + List.length (out (loop 1 pre init)) = closes pre /\
  List.length (stack (loop 1 pre init)) = opens pre - pops 1 pre init /\
  (forall i l st,
      close_match l = true -> stack (open_phase i l st) = [] ->
      pops_here i l st = false /\
      body i l st = {| stack := []; out := out st ++ [unmatched_msg i] |}).
Proof.
  split; [apply loop_prefix|].
  assert (H : List.length (stack (loop 1 pre init)) + pops 1 pre init = opens pre /\
              pops 1 pre init + List.length (out (loop 1 pre init)) = closes pre).
  { clear post. induction pre as [|l pre IH] using rev_ind; [split; reflexivity|].
    rewrite loop_snoc, pops_app, opens_snoc, closes_snoc. simpl pops.
    destruct IH as [IH1 IH2].
    destruct (body_balance (S (List.length pre)) l (loop 1 pre init)) as [B1 B2].
    split; lia. }
  destruct H as [H1 H2].
  split; [exact H1|]. split; [exact H2|]. split; [lia|].
  intros i l st Hc Hs. split.
  - unfold pops_here. rewrite Hs. apply andb_false_r.
  - unfold body, close_phase. rewrite Hc, Hs. f_equal.
    now rewrite out_open_phase.
Qed.

Lemma stack_size_invariant_witness :
  pops_here 2 "}" {| stack := []; out := ["Unmatched closing brace at 1"] |} = false /\
  body 2 "}" {| stack := []; out := ["Unmatched closing brace at 1"] |} =
    {| stack := [];
       out := ["Unmatched closing brace at 1"; "Unmatched closing brace at 2"] |}.
Proof.
  destruct (stack_size_invariant [] []) as (_ & _ & _ & _ & H).
  exact (H 2 "}" {| stack := []; out := ["Unmatched closing brace at 1"] |}
           eq_refl eq_refl).
Defined.

(** C6: the one-line document [}] prints the unmatched-brace message for
    line 1 and then [All control blocks closed]; and after an unmatched
    closing brace anywhere in a document the loop goes on with the
    remaining lines, from the empty stack and with the message added to
    the output. *)
Theorem unmatched_closer_continues :
  scan ["}"] = ["Unmatched closing brace at 1"; "All control blocks closed"] /\
  forall (pre post : list string) (l : string),
    close_match l = true ->
    stack (open_phase (S (List.length pre)) l (loop 1 pre init)) = [] ->
    loop 1 (pre ++ l :: post) init =
      loop (S (S (List.length pre))) post
        {| stack := [];
           out := out (loop 1 pre init) ++ [unmatched_msg (S (List.length pre))] |} /\
    scan (pre ++ l :: post) =
      report (loop (S (S (List.length pre))) post
        {| stack := [];
           out := out (loop 1 pre init) ++ [unmatched_msg (S (List.length pre))] |}).
Proof.
  split; [reflexivity|]. intros pre post l Hc Hs.
  assert (Hb : body (S (List.length pre)) l (loop 1 pre init) =
               {| stack := [];
                  out := out (loop 1 pre init) ++ [unmatched_msg (S (List.length pre))] |}).
  { unfold body, close_phase. rewrite Hc, Hs. f_equal. now rewrite out_open_phase. }
  assert (Hl : loop 1 (pre ++ l :: post) init =
               loop (S (S (List.length pre))) post
                 {| stack := [];
                    out := out (loop 1 pre init) ++ [unmatched_msg (S (List.length pre))] |}).
  { rewrite loop_prefix. simpl. now rewrite Hb. }
  split; [exact Hl|]. unfold scan. now rewrite Hl.
Qed.

Lemma unmatched_closer_continues_witness :
  scan (["@if (x) {"; "}"] ++ "}" :: ["@for (y) {"; "text"]) =
    ["Unmatched closing brace at 3"; "Unclosed control blocks:"; "for opened at 4"].
Proof.
  destruct unmatched_closer_continues as [_ H].
  destruct (H ["@if (x) {"; "}"] ["@for (y) {"; "text"] "}" eq_refl eq_refl)
    as (_ & ->).
  reflexivity.
Defined.

End StackDiscipline.

(** ** The listing of unclosed blocks *)

Section Unclosed.

Local Open Scope list_scope.

Lemma sorted_snoc (l : list nat) (x : nat) :
  StronglySorted lt l -> Forall (fun y => y < x) l ->
  StronglySorted lt (l ++ [x]).
Proof.
  induction 1 as [|a l Hs IH Ha]; intros Hx; simpl.
  - repeat constructor.
  - inversion Hx; subst. constructor; [now apply IH|].
    apply Forall_app. split; [assumption | now repeat constructor].
Qed.

Lemma sorted_app_l (l1 l2 : list nat) :
  StronglySorted lt (l1 ++ l2) -> StronglySorted lt l1.
Proof.
  induction l1 as [|a l1 IH]; simpl; intros H; [constructor|].
  inversion H; subst. constructor; [now apply IH|].
  match goal with Hf : Forall _ (l1 ++ l2) |- _ => now apply Forall_app in Hf end.
Qed.

Lemma opened_by_snoc (pre : list string) (l : string) (e : entry) :
  snd e <= List.length pre -> opened_by pre e -> opened_by (pre ++ [l]) e.
Proof.
  intros Hle (H1 & l0 & Hn & Ho). split; [assumption|].
  exists l0. split; [|assumption].
  rewrite nth_error_app1; [assumption | lia].
Qed.

(** The entries on the stack are in the order of their line numbers, and
    each one was pushed by the line whose number it carries. *)
Lemma stack_in_opening_order (d : list string) :
  StronglySorted lt (map snd (stack (loop 1 d init))) /\
  Forall (fun e => snd e <= List.length d /\ opened_by d e)
    (stack (loop 1 d init)).
Proof.
  apply (loop_prefix_ind
           (fun d st =>
              StronglySorted lt (map snd (stack st)) /\
              Forall (fun e => snd e <= List.length d /\ opened_by d e) (stack st))).
  - split; constructor.
  - intros pre l st _ [Hs Hf]. unfold body.
    set (i := S (List.length pre)).
    assert (Ho : StronglySorted lt (map snd (stack (open_phase i l st))) /\
                 Forall (fun e => snd e <= List.length (pre ++ [l]) /\
                                  opened_by (pre ++ [l]) e)
                   (stack (open_phase i l st))).
    { rewrite stack_open_phase, map_app, length_app. simpl List.length.
      assert (Hf' : Forall (fun e => snd e <= List.length pre + 1 /\
                                     opened_by (pre ++ [l]) e) (stack st)).
      { eapply Forall_impl; [|exact Hf]. intros e [Hle He].
        split; [lia | now apply opened_by_snoc]. }
      destruct (open_match l) as [tok|] eqn:E; simpl.
      - split.
        + apply sorted_snoc; [assumption|].
          apply Forall_map. eapply Forall_impl; [|exact Hf].
          intros e [Hle _]. unfold i. lia.
        + apply Forall_app. split; [assumption|].
          constructor; [|constructor]. simpl. split; [unfold i; lia|].
          split; [unfold i; simpl; lia|]. exists l. simpl. split; [|assumption].
          unfold i. rewrite nth_error_app2 by (simpl; lia).
          match goal with
          | |- nth_error [l] ?n = _ => replace n with 0 by lia
          end.
          reflexivity.
      - rewrite !app_nil_r. split; assumption. }
    destruct Ho as [Ho1 Ho2].
    destruct (close_phase_cases i l (open_phase i l st))
      as [(_ & ->)|[(_ & _ & ->)|(_ & rest & top & Hr & ->)]]; simpl.
    + split; assumption.
    + split; constructor.
    + rewrite Hr in Ho1, Ho2. rewrite map_app in Ho1.
      split; [now apply sorted_app_l in Ho1 | now apply Forall_app in Ho2].
Qed.

(** C7: when the scan ends with a non-empty stack, the output is the
    unmatched-brace messages printed so far, then
    [Unclosed control blocks:], then one line [<keyword> opened at <line>]
    per entry left, in stack order; that order is the order of opening:
    the line numbers increase strictly, and each entry names a line of
    the document that matched the opening pattern with that keyword. *)
Theorem unclosed_listed_in_opening_order (d : list string) :
  stack (loop 1 d init) <> [] ->
  scan d =
    out (loop 1 d init) ++
    "Unclosed control blocks:" ::
    map (fun e => (fst e ++ " opened at " ++ str (snd e))%string)
        (stack (loop 1 d init)) /\
  StronglySorted lt (map snd (stack (loop 1 d init))) /\
  Forall (opened_by d) (stack (loop 1 d init)).
Proof.
  intros Hne. destruct (stack_in_opening_order d) as [Hs Hf].
  split; [|split; [exact Hs|]].
  - unfold scan, report.
    destruct (stack (loop 1 d init)) as [|e s]; [contradiction | reflexivity].
  - eapply Forall_impl; [|exact Hf]. now intros e [_ He].
Qed.

Lemma unclosed_listed_in_opening_order_witness :
  scan ["@if (a) {"; "}"; "@for (b) {"; "}"; "}"; "@switch (c) {"; "@else {"] =
    ["Unmatched closing brace at 5"; "Unclosed control blocks:";
     "switch opened at 6"; "else opened at 7"].
Proof.
  refine (eq_trans
    (proj1 (unclosed_listed_in_opening_order
       ["@if (a) {"; "}"; "@for (b) {"; "}"; "}"; "@switch (c) {"; "@else {"] _)) _).
  - vm_compute. discriminate.
  - reflexivity.
Defined.

End Unclosed.

(** ** Determinism *)

Section Determinism.

Local Open Scope list_scope.
Import Exec.

Lemma open_step_fun i l st st1 :
  open_step i l st st1 -> st1 = open_phase i l st.
Proof.
  unfold open_phase. destruct 1 as [st tok H|st H]; now rewrite H.
Qed.

Lemma close_step_fun i l st st1 :
  close_step i l st st1 -> st1 = close_phase i l st.
Proof.
  unfold close_phase. destruct 1 as [st H Hs|st H Hs|st H]; rewrite H.
  - destruct (stack st); [contradiction | reflexivity].
  - now rewrite Hs.
  - reflexivity.
Qed.

Lemma loop_steps_fun i d st st' :
  loop_steps i d st st' -> st' = loop i d st.
Proof.
  induction 1 as [i st|i l ls st st1 st2 st3 Ho Hc _ IH]; [reflexivity|].
  simpl. unfold body.
  now rewrite <- (open_step_fun _ _ _ _ Ho), <- (close_step_fun _ _ _ _ Hc).
Qed.

Lemma open_step_total i l st : open_step i l st (open_phase i l st).
Proof.
  unfold open_phase. destruct (open_match l) eqn:E; now constructor.
Qed.

Lemma close_step_total i l st : close_step i l st (close_phase i l st).
Proof.
  unfold close_phase. destruct (close_match l) eqn:E; [|now constructor].
  destruct (stack st) as [|e s] eqn:Es.
  - rewrite <- Es. now apply close_unmatched.
  - rewrite <- Es. apply close_pop; [assumption | now rewrite Es].
Qed.

Lemma loop_steps_total d : forall i st, loop_steps i d st (loop i d st).
Proof.
  induction d as [|l ls IH]; intros i st; simpl; [constructor|].
  econstructor; [apply open_step_total | apply close_step_total | apply IH].
Qed.

(** Every document has a run, and it prints [scan d]. *)
Lemma runs_scan (d : list string) : runs d (scan d).
Proof. constructor. apply loop_steps_total. Qed.

(** C9: two runs of the scan on the same document print the same output,
    which is [scan d]. *)
Theorem scan_deterministic (d o1 o2 : list string) :
  runs d o1 -> runs d o2 -> o1 = o2 /\ o1 = scan d.
Proof.
  intros [st1 H1] [st2 H2].
  apply loop_steps_fun in H1, H2. subst. split; reflexivity.
Qed.

Lemma scan_deterministic_witness :
  scan ["@if (x) {"; "}"; "}"] = scan ["@if (x) {"; "}"; "}"] /\
  scan ["@if (x) {"; "}"; "}"] =
    ["Unmatched closing brace at 3"; "All control blocks closed"].
Proof.
  destruct (scan_deterministic ["@if (x) {"; "}"; "}"] _ _
              (runs_scan _) (runs_scan _)) as [H _].
  split; [exact H | reflexivity].
Defined.

End Determinism.

(** ** One push and one pop per line *)

Section PerLine.

Local Open Scope list_scope.

(** C10: on every line the opening check appends at most one entry and
    the closing check removes at most one, so a line changes the stack
    size by at most one either way; [@if (x) { @for (y) {] pushes only
    the [if] entry and [}}] pops only once. *)
Theorem one_push_one_pop_per_line (i : nat) (l : string) (st : state) :
  (stack (open_phase i l st) = stack st \/
   exists tok, stack (open_phase i l st) = stack st ++ [(tok, i)]) /\
  (stack (body i l st) = stack (open_phase i l st) \/
   exists top, stack (open_phase i l st) = stack (body i l st) ++ [top]) /\
  List.length (stack (body i l st)) <= S (List.length (stack st)) /\
  List.length (stack st) <= S (List.length (stack (body i l st))) /\
  body i "@if (x) { @for (y) {" st =
    {| stack := stack st ++ [("if", i)]; out := out st |} /\
  (forall rest e1 e2 o,
      body i "}}" {| stack := rest ++ [e1; e2]; out := o |} =
      {| stack := rest ++ [e1]; out := o |}).
Proof.
  assert (Hpush : stack (open_phase i l st) = stack st \/
                  exists tok, stack (open_phase i l st) = stack st ++ [(tok, i)]).
  { rewrite stack_open_phase. destruct (open_match l) as [tok|];
      [right; now exists tok | left; apply app_nil_r]. }
  assert (Hpop : stack (body i l st) = stack (open_phase i l st) \/
                 exists top, stack (open_phase i l st) = stack (body i l st) ++ [top]).
  { unfold body.
    destruct (close_phase_cases i l (open_phase i l st))
      as [(_ & ->)|[(_ & Hs & ->)|(_ & rest & top & Hs & ->)]]; simpl.
    - now left.
    - now left.
    - right. now exists top. }
  split; [exact Hpush|]. split; [exact Hpop|].
  split; [|split; [|split]].
  - destruct Hpush as [Hp|(tok & Hp)], Hpop as [Hq|(top & Hq)];
      rewrite Hp in Hq; try (rewrite Hq; simpl; rewrite ?length_app; simpl; lia);
      apply (f_equal (@List.length entry)) in Hq;
      rewrite ?length_app in Hq; simpl in Hq; lia.
  - destruct Hpush as [Hp|(tok & Hp)], Hpop as [Hq|(top & Hq)];
      rewrite Hp in Hq; try (rewrite Hq; simpl; rewrite ?length_app; simpl; lia);
      apply (f_equal (@List.length entry)) in Hq;
      rewrite ?length_app in Hq; simpl in Hq; lia.
  - reflexivity.
  - intros rest e1 e2 o. unfold body.
    change (open_phase i "}}" {| stack := rest ++ [e1; e2]; out := o |})
      with {| stack := rest ++ [e1; e2]; out := o |}.
    change (close_phase i "}}" {| stack := rest ++ [e1; e2]; out := o |})
      with (match rest ++ [e1; e2] with
            | [] => {| stack := rest ++ [e1; e2];
                       out := o ++ [unmatched_msg i] |}
            | _ :: _ => {| stack := removelast (rest ++ [e1; e2]); out := o |}
            end).
    replace (rest ++ [e1; e2]) with ((rest ++ [e1]) ++ [e2])
      by (now rewrite <- app_assoc).
    rewrite removelast_last.
    destruct ((rest ++ [e1]) ++ [e2]) eqn:E; [|reflexivity].
    exfalso. destruct rest; discriminate E.
Qed.

End PerLine.

(** ** The patterns, line by line *)

Section LinePatterns.

Local Open Scope list_scope.

Lemma forallb_all {A} (f : A -> bool) (l : list A) :
  forallb f l = true -> Forall (fun c => f c = true) l.
Proof.
  induction l as [|a l IH]; simpl; intros H; constructor;
    apply andb_true_iff in H; destruct H; auto.
Qed.

Lemma search_at_here r p s m :
  run r p s None accept = Some m -> search_at r p s = Some m.
Proof. intros H. destruct s; simpl; now rewrite H. Qed.

(** What a successful search for the opening pattern has found. *)
Lemma search_open_inv p s m :
  search_at open_re p s = Some m ->
  exists kw, In kw keywords /\ m = Some (list_ascii_of_string kw).
Proof.
  intros E.
  destruct (search_at_sound _ _ _ _ E) as (pre & suf & _ & Hr).
  destruct (run_sound _ _ _ _ _ _ Hr) as (w0 & rest & cap' & _ & M & Hk).
  unfold accept in Hk. inversion Hk; subst cap'.
  destruct (open_re_matches_inv _ _ _ _ M) as (kw & tail & Hkw & Hc & _).
  now exists kw.
Qed.

(** A match that starts at the [@] of a keyword captures that keyword. *)
Lemma run_open_at_keyword p kw tail m :
  In kw keywords ->
  run open_re p ("@"%char :: list_ascii_of_string kw ++ tail) None accept = Some m ->
  m = Some (list_ascii_of_string kw).
Proof.
  intros Hkw Hr.
  destruct (run_sound _ _ _ _ _ _ Hr) as (w0 & rest & cap' & Hs & M & Hk).
  unfold accept in Hk. inversion Hk; subst cap'.
  destruct (open_re_matches_inv _ _ _ _ M) as (kw' & tail' & Hkw' & -> & ->).
  simpl in Hs. inversion Hs as [Hs']. rewrite <- app_assoc in Hs'.
  now rewrite (keyword_prefix_free _ _ _ _ Hkw Hkw' Hs').
Qed.

(** C3, as stated, fails: in [@if(x) foo {] the keyword and its
    parenthesized expression are followed, after other content, by an
    opening brace, and the opening pattern does not match. *)
Lemma open_needs_adjacent_brace :
  ~ (forall pre kw grp mid post : string,
        In kw keywords ->
        (grp = "" \/
         exists inner, grp = ("(" ++ inner ++ ")")%string /\
                       no_rparen inner = true) ->
        open_match (pre ++ "@" ++ kw ++ grp ++ mid ++ "{" ++ post)%string
          <> None).
Proof.
  intros H.
  apply (H "" "if" "(x)" " foo " "").
  - simpl. tauto.
  - right. exists "x". split; reflexivity.
  - reflexivity.
Qed.

(** C3 (amended): the opening pattern matches whenever the line contains
    [@] and one of the six keywords followed by optional white space, an
    optional parenthesized expression without closing parenthesis inside,
    optional white space and then an opening brace; on a match the pair
    of the matched keyword (that of the leftmost match, which is the
    keyword above when no [@] comes before it) and the current line number
    is pushed onto the stack. *)
Theorem open_pattern_sufficient
    (pre kw ws1 grp ws2 post : string) (i : nat) (st : state) :
  In kw keywords ->
  all_space ws1 = true -> all_space ws2 = true ->
  (grp = "" \/
   exists inner, grp = ("(" ++ inner ++ ")")%string /\ no_rparen inner = true) ->
  exists tok,
    open_match (pre ++ "@" ++ kw ++ ws1 ++ grp ++ ws2 ++ "{" ++ post)%string
      = Some tok /\
    In tok keywords /\
    (no_at pre = true -> tok = kw) /\
    open_phase i (pre ++ "@" ++ kw ++ ws1 ++ grp ++ ws2 ++ "{" ++ post)%string st
      = {| stack := stack st ++ [(tok, i)]; out := out st |}.
Proof.
  intros Hkw H1 H2 Hgrp.
  set (l := (pre ++ "@" ++ kw ++ ws1 ++ grp ++ ws2 ++ "{" ++ post)%string).
  set (suf := "@"%char :: list_ascii_of_string kw ++
                (list_ascii_of_string ws1 ++ list_ascii_of_string grp ++
                 list_ascii_of_string ws2 ++ ["{"%char]) ++
                list_ascii_of_string post).
  assert (Hl : list_ascii_of_string l = list_ascii_of_string pre ++ suf).
  { unfold l, suf. rewrite !list_ascii_of_string_app. simpl.
    rewrite <- !app_assoc. reflexivity. }
  assert (Hrun : forall p, run open_re p suf None accept <> None).
  { intros p. unfold suf. rewrite app_assoc.
    change ("@"%char :: ?a ++ ?b) with (("@"%char :: a) ++ b).
    apply run_complete with (cap' := Some (list_ascii_of_string kw));
      [|discriminate].
    apply open_re_matches_intro; try assumption; try now apply forallb_all.
    destruct Hgrp as [->|(inner & -> & Hin)]; [now left | right].
    exists (list_ascii_of_string inner).
    rewrite !list_ascii_of_string_app. split; [reflexivity|].
    now apply forallb_all. }
  assert (Hsome : exists tok, open_match l = Some tok /\ In tok keywords).
  { unfold open_match, search. rewrite Hl.
    pose proof (search_at_complete open_re (list_ascii_of_string pre) None suf (Hrun _)) as Hn.
    destruct (search_at open_re None (list_ascii_of_string pre ++ suf)) as [m|] eqn:E;
      [|contradiction].
    destruct (search_open_inv _ _ _ E) as (kw' & Hkw' & ->).
    exists kw'. now rewrite string_of_list_ascii_of_string. }
  destruct Hsome as (tok & Ho & Htok). exists tok.
  split; [exact Ho|]. split; [exact Htok|]. split.
  - intros Hat. revert Ho. unfold open_match, search. rewrite Hl.
    rewrite search_open_skip by now apply forallb_all.
    destruct (run open_re (after None (list_ascii_of_string pre)) suf None accept)
      as [m|] eqn:E; [|now destruct (Hrun _ E)].
    rewrite (search_at_here _ _ _ _ E).
    unfold suf in E. apply run_open_at_keyword in E; [|assumption]. subst m.
    rewrite string_of_list_ascii_of_string. intros Hk. now inversion Hk.
  - unfold open_phase. now rewrite Ho.
Qed.

Lemma open_pattern_sufficient_witness :
  open_phase 7 "<div> @for (item of items; track item)  { x" init =
    {| stack := [("for", 7)]; out := [] |}.
Proof.
  destruct (open_pattern_sufficient
              "<div> " "for" " " "(item of items; track item)" "  " " x" 7 init)
    as (tok & Ho & _ & Hk & Hp).
  - simpl. tauto.
  - reflexivity.
  - reflexivity.
  - right. exists "item of items; track item". split; reflexivity.
  - refine (eq_trans Hp _). rewrite (Hk eq_refl). reflexivity.
Defined.

Lemma lstrip_shape (l rest : string) :
  lstrip l = String "}" rest <->
  exists ws,
    Forall (fun c => is_space c = true) ws /\
    list_ascii_of_string l = ws ++ "}"%char :: list_ascii_of_string rest.
Proof.
  induction l as [|c l IH]; simpl.
  - split; [discriminate|]. intros (ws & _ & H). now destruct ws.
  - destruct (is_space c) eqn:Ec.
    + rewrite IH. split.
      * intros (ws & Hws & ->). exists (c :: ws). split; [now constructor | reflexivity].
      * intros (ws & Hws & H). destruct ws as [|c' ws]; simpl in H.
        -- inversion H; subst c. discriminate Ec.
        -- inversion H; subst c'. inversion Hws; subst. now exists ws.
    + split.
      * intros H. inversion H; subst. now exists [].
      * intros (ws & Hws & H). destruct ws as [|c' ws]; simpl in H.
        -- inversion H as [[Hc Hr]]. now rewrite (string_of_list_inj _ _ Hr).
        -- inversion H; subst c'. inversion Hws; subst. congruence.
Qed.

(** C8: the closing pattern matches exactly the lines that, without their
    leading white space, begin with a closing brace, whatever follows the
    brace ([@else], [@empty], [@case] or anything else); and the closing
    check of a line does one of three things: nothing, one pop, or one
    unmatched-brace message. *)
Theorem close_pattern_exact (l : string) (i : nat) (st : state) :
  (close_match l = true <-> exists rest, lstrip l = String "}" rest) /\
  ((close_match l = false /\ close_phase i l st = st) \/
   (close_match l = true /\ stack st = [] /\
    close_phase i l st =
      {| stack := []; out := out st ++ [unmatched_msg i] |}) \/
   (close_match l = true /\
    exists rest top, stack st = rest ++ [top] /\
      close_phase i l st = {| stack := rest; out := out st |})).
Proof.
  split; [|apply close_phase_cases].
  rewrite close_match_shape. split.
  - intros (ws & tail & Hws & Hl). exists (string_of_list_ascii tail).
    apply lstrip_shape. exists ws. split; [assumption|].
    now rewrite list_ascii_of_string_of_list_ascii.
  - intros (rest & H). apply lstrip_shape in H. destruct H as (ws & Hws & Hl).
    now exists ws, (list_ascii_of_string rest).
Qed.

End LinePatterns.


(** ** Properly nested documents *)

Section Balanced.

Local Open Scope list_scope.

Lemma state_eta (st : state) : {| stack := stack st; out := out st |} = st.
Proof. now destruct st. Qed.

Lemma body_plain i l st :
  open_match l = None -> close_match l = false -> body i l st = st.
Proof.
  intros Ho Hc. unfold body, open_phase, close_phase. now rewrite Ho, Hc.
Qed.

Lemma body_push i l tok st :
  open_match l = Some tok -> close_match l = false ->
  body i l st = {| stack := stack st ++ [(tok, i)]; out := out st |}.
Proof.
  intros Ho Hc. unfold body, open_phase, close_phase. now rewrite Ho, Hc.
Qed.

Lemma body_pop i l top rest o :
  open_match l = None -> close_match l = true ->
  body i l {| stack := rest ++ [top]; out := o |} =
  {| stack := rest; out := o |}.
Proof.
  intros Ho Hc. unfold body, open_phase, close_phase. rewrite Ho, Hc. simpl.
  rewrite removelast_last. now destruct rest.
Qed.

Lemma body_both i l tok st :
  open_match l = Some tok -> close_match l = true -> body i l st = st.
Proof.
  intros Ho Hc. unfold body, open_phase, close_phase. rewrite Ho, Hc. simpl.
  rewrite removelast_last.
  destruct (stack st ++ [(tok, i)]) eqn:E; [now destruct (stack st)|].
  apply state_eta.
Qed.

(** A properly nested run of lines leaves the stack and the output as it
    found them, wherever in the document it stands. *)
Lemma balanced_loop (d : list string) :
  balanced d -> forall i st, loop i d st = st.
Proof.
  induction 1 as [ | l d Ho Hc _ IH | l tok d Ho Hc _ IH
                 | o tok inner c rest Ho Hc _ IHin Hno Hcl _ IHrest ];
    intros i st; simpl.
  - reflexivity.
  - now rewrite (body_plain _ _ _ Ho Hc).
  - now rewrite (body_both _ _ _ _ Ho Hc).
  - rewrite (body_push _ _ _ _ Ho Hc), loop_app, IHin. simpl.
    rewrite (body_pop _ _ _ _ _ Hno Hcl), state_eta. apply IHrest.
Qed.

(** X1: a properly nested document prints exactly
    [All control blocks closed], and a properly nested part in front of a
    document only shifts the line numbers of what follows. *)
Theorem balanced_all_closed (d post : list string) :
  balanced d ->
  scan d = ["All control blocks closed"] /\
  loop 1 (d ++ post) init = loop (S (List.length d)) post init.
Proof.
  intros H. split.
  - unfold scan. now rewrite (balanced_loop d H).
  - now rewrite loop_prefix, (balanced_loop d H).
Qed.

Lemma nested_doc_balanced :
  balanced ["<p>"; "@if (a) {"; "@for (x of xs) {"; "x"; "}"; "} @else {";
            "}"; "</p>"].
Proof.
  apply bal_plain; [reflexivity | reflexivity |].
  apply (bal_block "@if (a) {" "if"
           ["@for (x of xs) {"; "x"; "}"; "} @else {"] "}" ["</p>"]);
    try reflexivity.
  - apply (bal_block "@for (x of xs) {" "for" ["x"] "}" ["} @else {"]);
      try reflexivity.
    + apply bal_plain; [reflexivity | reflexivity | constructor].
    + apply (bal_both _ "else"); [reflexivity | reflexivity | constructor].
  - apply bal_plain; [reflexivity | reflexivity | constructor].
Qed.

Lemma balanced_all_closed_witness :
  scan ["<p>"; "@if (a) {"; "@for (x of xs) {"; "x"; "}"; "} @else {";
        "}"; "</p>"] = ["All control blocks closed"].
Proof.
  exact (proj1 (balanced_all_closed _ [] nested_doc_balanced)).
Defined.

End Balanced.

(** ** Documents with one kind of line only *)

Section OneSided.

Local Open Scope list_scope.

Lemma loop_no_closers (d : list string) :
  Forall (fun l => close_match l = false) d ->
  forall i st,
    loop i d st = {| stack := stack st ++ opening_lines i d; out := out st |}.
Proof.
  induction 1 as [|l d Hc _ IH]; intros i st; simpl.
  - now rewrite app_nil_r, state_eta.
  - rewrite IH. unfold body, open_phase, close_phase. rewrite Hc.
    destruct (open_match l) as [tok|]; simpl; [|reflexivity].
    now rewrite <- app_assoc.
Qed.

(** X2: when no line of the document matches the closing pattern, every
    opening line stays on the stack: the stack at the end is the list of
    the opening lines with their keywords, in document order, and nothing
    is printed inside the loop. *)
Theorem no_closers_all_listed (d : list string) :
  Forall (fun l => close_match l = false) d ->
  loop 1 d init = {| stack := opening_lines 1 d; out := [] |} /\
  (opening_lines 1 d <> [] ->
   scan d = "Unclosed control blocks:" :: map opened_msg (opening_lines 1 d)).
Proof.
  intros H. rewrite (loop_no_closers d H). simpl. split; [reflexivity|].
  intros Hne. unfold scan. rewrite (loop_no_closers d H). unfold report. simpl.
  destruct (opening_lines 1 d); [contradiction | reflexivity].
Qed.

Lemma no_closers_all_listed_witness :
  scan ["@switch (k) {"; "text"; "@if(a){"; "@empty {"] =
    ["Unclosed control blocks:"; "switch opened at 1"; "if opened at 3";
     "empty opened at 4"].
Proof.
  refine (proj2 (no_closers_all_listed
                   ["@switch (k) {"; "text"; "@if(a){"; "@empty {"] _) _).
  - repeat constructor.
  - discriminate.
Defined.

Lemma loop_no_openers (d : list string) :
  Forall (fun l => open_match l = None) d ->
  forall i o,
    loop i d {| stack := []; out := o |} =
    {| stack := []; out := o ++ map unmatched_msg (closing_lines i d) |}.
Proof.
  induction 1 as [|l d Ho _ IH]; intros i o; simpl.
  - now rewrite app_nil_r.
  - unfold body, open_phase, close_phase. rewrite Ho.
    destruct (close_match l); simpl; rewrite IH; [|reflexivity].
    now rewrite <- app_assoc.
Qed.

(** X3: when no line of the document matches the opening pattern, every
    closing line is reported as unmatched, in document order, and the
    report still ends with [All control blocks closed]. *)
Theorem no_openers_all_unmatched (d : list string) :
  Forall (fun l => open_match l = None) d ->
  scan d = map unmatched_msg (closing_lines 1 d) ++ ["All control blocks closed"].
Proof.
  intros H. unfold scan, init. now rewrite (loop_no_openers d H).
Qed.

Lemma no_openers_all_unmatched_witness :
  scan ["}"; "<p>"; "  } @else"; "@iffy {"] =
    ["Unmatched closing brace at 1"; "Unmatched closing brace at 3";
     "All control blocks closed"].
Proof.
  refine (eq_trans (no_openers_all_unmatched
                      ["}"; "<p>"; "  } @else"; "@iffy {"] _) _).
  - repeat constructor.
  - reflexivity.
Defined.

End OneSided.

(** ** The messages about unmatched closing braces *)

Section Unmatched.

Local Open Scope list_scope.

Lemma closer_at_snoc (pre : list string) (l : string) (i : nat) :
  i <= List.length pre -> closer_at pre i -> closer_at (pre ++ [l]) i.
Proof.
  intros Hle (H1 & l0 & Hn & Hc). split; [assumption|].
  exists l0. split; [|assumption].
  rewrite nth_error_app1; [assumption | lia].
Qed.

Lemma unmatched_in_document_order (d : list string) :
  exists ns,
    out (loop 1 d init) = map unmatched_msg ns /\
    StronglySorted lt ns /\
    Forall (fun i => i <= List.length d /\ closer_at d i) ns.
Proof.
  apply (loop_prefix_ind
           (fun d st =>
              exists ns,
                out st = map unmatched_msg ns /\
                StronglySorted lt ns /\
                Forall (fun i => i <= List.length d /\ closer_at d i) ns)).
  - exists []. repeat split; constructor.
  - intros pre l st _ (ns & Hout & Hs & Hf). unfold body.
    assert (Hf' : Forall (fun i => i <= List.length (pre ++ [l]) /\
                                   closer_at (pre ++ [l]) i) ns).
    { eapply Forall_impl; [|exact Hf]. intros i [Hle Hi].
      rewrite length_app. simpl. split; [lia | now apply closer_at_snoc]. }
    destruct (close_phase_cases (S (List.length pre)) l
                (open_phase (S (List.length pre)) l st))
      as [(_ & ->)|[(Hc & _ & ->)|(_ & rest & top & _ & ->)]];
      simpl; rewrite ?out_open_phase.
    + now exists ns.
    + exists (ns ++ [S (List.length pre)]).
      rewrite map_app, Hout. split; [reflexivity|]. split.
      * apply sorted_snoc; [assumption|].
        eapply Forall_impl; [|exact Hf]. intros i [Hle _]. lia.
      * apply Forall_app. split; [assumption|].
        constructor; [|constructor]. rewrite length_app. simpl.
        split; [lia|]. split; [lia|]. exists l. split; [|assumption].
        rewrite nth_error_app2 by (simpl; lia).
        match goal with
        | |- nth_error [l] ?n = _ => replace n with 0 by lia
        end.
        reflexivity.
    + now exists ns.
Qed.

(** X4: the lines printed inside the loop are unmatched-brace messages
    whose line numbers increase strictly, and each number is that of a line
    of the document that matches the closing pattern. *)
Theorem unmatched_name_closing_lines (d : list string) :
  exists ns,
    out (loop 1 d init) = map unmatched_msg ns /\
    StronglySorted lt ns /\
    Forall (closer_at d) ns.
Proof.
  destruct (unmatched_in_document_order d) as (ns & Ho & Hs & Hf).
  exists ns. split; [exact Ho|]. split; [exact Hs|].
  eapply Forall_impl; [|exact Hf]. now intros i [_ Hi].
Qed.

Lemma loop_counts (d : list string) :
  List.length (stack (loop 1 d init)) + pops 1 d init = opens d /\
  pops 1 d init + List.length (out (loop 1 d init)) = closes d.
Proof.
  induction d as [|l pre IH] using rev_ind; [split; reflexivity|].
  rewrite loop_snoc, pops_app, opens_snoc, closes_snoc. simpl pops.
  destruct IH as [IH1 IH2].
  destruct (body_balance (S (List.length pre)) l (loop 1 pre init)) as [B1 B2].
  split; lia.
Qed.

Lemma unmatched_not_unclosed i : unmatched_msg i <> unclosed_msg.
Proof. discriminate. Qed.

Lemma opened_not_unclosed e :
  In (fst e) keywords -> opened_msg e <> unclosed_msg.
Proof.
  destruct e as [tok i]. simpl. intros H. each_keyword H; discriminate.
Qed.

(** X5: the output is exactly the one line [All control blocks closed] if
    and only if the stack is empty after the final line and no
    unmatched-brace message was printed; the document then has as many
    lines matching the opening pattern as lines matching the closing one. *)
Theorem exactly_all_closed (d : list string) :
  (scan d = ["All control blocks closed"] <->
   stack (loop 1 d init) = [] /\ out (loop 1 d init) = []) /\
  (scan d = ["All control blocks closed"] -> opens d = closes d).
Proof.
  assert (Hiff : scan d = ["All control blocks closed"] <->
                 stack (loop 1 d init) = [] /\ out (loop 1 d init) = []).
  { unfold scan, report. split.
    - destruct (stack (loop 1 d init)) as [|e s] eqn:Es.
      + intros H. split; [reflexivity|].
        destruct (out (loop 1 d init)) as [|m o]; [reflexivity|].
        destruct o; discriminate H.
      + intros H. exfalso.
        destruct (out (loop 1 d init)) as [|m o] eqn:Eo.
        * discriminate H.
        * simpl in H. inversion H as [[Hm Ho]].
          pose proof (out_only_unmatched d) as Hu. rewrite Eo in Hu.
          inversion Hu as [|? ? (i & Hi) _]; subst.
          exact (unmatched_not_all_closed i (eq_sym Hi)).
    - intros [-> ->]. reflexivity. }
  split; [exact Hiff|].
  intros H. apply Hiff in H. destruct H as [Hs Ho].
  destruct (loop_counts d) as [H1 H2]. rewrite Hs in H1. rewrite Ho in H2.
  simpl in H1, H2. lia.
Qed.

Lemma exactly_all_closed_witness :
  opens ["@if (x) {"; "} @else {"; "}"] = closes ["@if (x) {"; "} @else {"; "}"].
Proof.
  exact (proj2 (exactly_all_closed ["@if (x) {"; "} @else {"; "}"]) eq_refl).
Defined.

(** X6: every output holds exactly one of the two verdict lines, and its
    length is tied to the document by the counts of the scan: the number of
    printed lines plus twice the number of pops equals the number of lines
    matching the opening pattern, plus the number matching the closing
    pattern, plus one (a non-empty stack adds the heading line). *)
Theorem one_verdict_and_output_size (d : list string) :
  ((In all_closed_msg (scan d) /\ ~ In unclosed_msg (scan d)) \/
   (In unclosed_msg (scan d) /\ ~ In all_closed_msg (scan d))) /\
  List.length (scan d) + 2 * pops 1 d init = opens d + closes d + 1.
Proof.
  pose proof (out_only_unmatched d) as Hu. rewrite Forall_forall in Hu.
  pose proof (stack_keywords d) as Hk. rewrite Forall_forall in Hk.
  destruct (loop_counts d) as [H1 H2].
  unfold scan, report.
  destruct (stack (loop 1 d init)) as [|e s] eqn:Es.
  - split; [left; split|].
    + apply in_or_app; right; now left.
    + intros Hin. apply in_app_or in Hin. destruct Hin as [Hin|[Hin|[]]].
      * destruct (Hu _ Hin) as (i & Hi).
        exact (unmatched_not_unclosed i (eq_sym Hi)).
      * discriminate Hin.
    + rewrite length_app. simpl in *. lia.
  - split; [right; split|].
    + apply in_or_app; right; now left.
    + intros Hin. apply in_app_or in Hin. destruct Hin as [Hin|[Hin|Hin]].
      * destruct (Hu _ Hin) as (i & Hi).
        exact (unmatched_not_all_closed i (eq_sym Hi)).
      * discriminate Hin.
      * apply in_map_iff in Hin. destruct Hin as (e' & He' & Hin).
        exact (opened_not_all_closed e' (Hk _ Hin) He').
    + rewrite length_app. simpl. rewrite length_map. simpl in H1. lia.
Qed.

End Unmatched.

(** ** What an opening match looks like *)

Section OpenShape.

Local Open Scope list_scope.

Lemma string_of_list_ascii_app (a b : list ascii) :
  string_of_list_ascii (a ++ b) =
  (string_of_list_ascii a ++ string_of_list_ascii b)%string.
Proof.
  induction a as [|c a IH]; simpl; [reflexivity | now rewrite IH].
Qed.

Lemma all_forallb {A} (f : A -> bool) (l : list A) :
  Forall (fun c => f c = true) l -> forallb f l = true.
Proof.
  induction 1 as [|a l Ha _ IH]; simpl; [reflexivity | now rewrite Ha, IH].
Qed.

Lemma open_tail_inv p w rest cap cap' :
  matches
    (WordB +> StarSet is_space +>
     Opt (Chr "(" +> StarSet (fun c => negb (Ascii.eqb c ")")) +> Chr ")") +>
     StarSet is_space +> Chr "{")%re p w rest cap cap' ->
  cap' = cap /\
  exists ws1 grp ws2,
    w = ws1 ++ grp ++ ws2 ++ ["{"%char] /\
    Forall (fun c => is_space c = true) ws1 /\
    Forall (fun c => is_space c = true) ws2 /\
    (grp = [] \/
     exists inner, grp = "("%char :: inner ++ [")"%char] /\
       Forall (fun c => negb (Ascii.eqb c ")") = true) inner).
Proof.
  intros H.
  inversion H as [| | | | | ? ? ? w0 wa ? ? ? ? Hb Ha | | | | |]; subst; clear H.
  inversion Hb; subst; clear Hb.
  inversion Ha as [| | | | | ? ? ? ws1 wb ? ? ? ? Hs1 Hb' | | | | |]; subst; clear Ha.
  inversion Hs1; subst; clear Hs1.
  inversion Hb' as [| | | | | ? ? ? grp wc ? ? ? ? Hg Hc | | | | |]; subst; clear Hb'.
  inversion Hc as [| | | | | ? ? ? ws2 wd ? ? ? ? Hs2 Hd | | | | |]; subst; clear Hc.
  inversion Hs2; subst; clear Hs2.
  inversion Hd; subst; clear Hd.
  inversion Hg as [| | | | | | | | ? ? ? ? ? ? Hin | |]; subst; clear Hg.
  - inversion Hin as [| | | | | ? ? ? wl wr ? ? ? ? Hl Hr | | | | |]; subst; clear Hin.
    inversion Hl; subst; clear Hl.
    inversion Hr as [| | | | | ? ? ? inner we ? ? ? ? Hi He | | | | |]; subst; clear Hr.
    inversion Hi; subst; clear Hi. inversion He; subst; clear He.
    split; [reflexivity|].
    exists ws1, ("("%char :: inner ++ [")"%char]), ws2.
    repeat split; try assumption. right. now exists inner.
  - split; [reflexivity|]. exists ws1, [], ws2.
    repeat split; try assumption. now left.
Qed.

Lemma keyword_alts_inv p w rest cap cap' :
  matches (word "if" </> word "for" </> word "switch" </> word "case"
           </> word "empty" </> word "else")%re p w rest cap cap' ->
  exists kw, In kw keywords /\ w = list_ascii_of_string kw.
Proof.
  intros H. cbv [word lit list_ascii_of_string] in H.
  inv_matches;
    match goal with
    | |- exists kw, _ /\ ?k = _ =>
        exists (string_of_list_ascii k); split; [simpl; tauto | reflexivity]
    end.
Qed.

Lemma open_re_matches_shape p w rest cap' :
  matches open_re p w rest None cap' ->
  exists kw ws1 grp ws2,
    In kw keywords /\ cap' = Some (list_ascii_of_string kw) /\
    w = "@"%char :: list_ascii_of_string kw ++ ws1 ++ grp ++ ws2 ++ ["{"%char] /\
    Forall (fun c => is_space c = true) ws1 /\
    Forall (fun c => is_space c = true) ws2 /\
    (grp = [] \/
     exists inner, grp = "("%char :: inner ++ [")"%char] /\
       Forall (fun c => negb (Ascii.eqb c ")") = true) inner).
Proof.
  unfold open_re. intros H.
  inversion H as [| | | | | ? ? ? w0 wa ? ? ? ? Hat Ha | | | | |]; subst; clear H.
  inversion Hat; subst; clear Hat.
  inversion Ha as [| | | | | ? ? ? wk wt ? ? ? ? Hk Ht | | | | |]; subst; clear Ha.
  inversion Hk as [| | | | | | | | | | ? ? ? ? ? ? Hkw]; subst; clear Hk.
  destruct (keyword_alts_inv _ _ _ _ _ Hkw) as (kw & Hin & ->).
  destruct (open_tail_inv _ _ _ _ _ Ht)
    as (-> & ws1 & grp & ws2 & -> & H1 & H2 & Hg).
  exists kw, ws1, grp, ws2. repeat split; assumption.
Qed.

(** X7: when the opening pattern matches a line, the line holds, somewhere,
    [@] and the reported keyword, one of the six, followed by nothing but
    white space, an optional parenthesized group without closing
    parenthesis inside, white space and the opening brace. *)
Theorem open_match_shape (l tok : string) :
  open_match l = Some tok ->
  In tok keywords /\
  exists pre ws1 grp ws2 post : string,
    l = (pre ++ "@" ++ tok ++ ws1 ++ grp ++ ws2 ++ "{" ++ post)%string /\
    all_space ws1 = true /\ all_space ws2 = true /\
    (grp = "" \/
     exists inner, grp = ("(" ++ inner ++ ")")%string /\ no_rparen inner = true).
Proof.
  unfold open_match, search. intros H.
  destruct (search_at open_re None (list_ascii_of_string l)) as [[w|]|] eqn:E;
    try discriminate.
  inversion H; subst tok; clear H.
  destruct (search_at_sound _ _ _ _ E) as (pre & suf & Hl & Hr).
  destruct (run_sound _ _ _ _ _ _ Hr) as (w0 & rest & cap' & Hs & M & Hk).
  unfold accept in Hk. inversion Hk; subst cap'; clear Hk.
  destruct (open_re_matches_shape _ _ _ _ M)
    as (kw & ws1 & grp & ws2 & Hkw & Hc & Hw & H1 & H2 & Hg).
  inversion Hc; subst w; clear Hc.
  rewrite string_of_list_ascii_of_string. split; [assumption|].
  exists (string_of_list_ascii pre), (string_of_list_ascii ws1),
    (string_of_list_ascii grp), (string_of_list_ascii ws2),
    (string_of_list_ascii rest).
  split; [|split; [|split]].
  - apply string_of_list_inj.
    rewrite !list_ascii_of_string_app, !list_ascii_of_string_of_list_ascii.
    rewrite Hl, Hs, Hw. simpl. rewrite <- !app_assoc. reflexivity.
  - unfold all_space. rewrite list_ascii_of_string_of_list_ascii.
    now apply all_forallb.
  - unfold all_space. rewrite list_ascii_of_string_of_list_ascii.
    now apply all_forallb.
  - destruct Hg as [->|(inner & -> & Hi)]; [now left | right].
    exists (string_of_list_ascii inner). split.
    + simpl. now rewrite string_of_list_ascii_app.
    + unfold no_rparen. rewrite list_ascii_of_string_of_list_ascii.
      now apply all_forallb.
Qed.

Lemma open_match_shape_witness :
  In "for" keywords /\
  exists pre ws1 grp ws2 post : string,
    "<li> @for (x of xs) { x" =
      (pre ++ "@" ++ "for" ++ ws1 ++ grp ++ ws2 ++ "{" ++ post)%string /\
    all_space ws1 = true /\ all_space ws2 = true /\
    (grp = "" \/
     exists inner, grp = ("(" ++ inner ++ ")")%string /\ no_rparen inner = true).
Proof.
  exact (open_match_shape "<li> @for (x of xs) { x" "for" eq_refl).
Defined.

End OpenShape.

(** ** Splitting the text into lines *)

Section SplitLines.

Local Open Scope list_scope.

(** One step of [splitlines_aux], with the test for a carriage return
    followed by a line feed spelled out. *)
Lemma splitlines_aux_cons (cur : list ascii) (c : ascii) (s : list ascii) :
  splitlines_aux cur (c :: s) =
  if is_linebreak c then
    string_of_list_ascii (rev cur) ::
    splitlines_aux [] (if Ascii.eqb c "013" then drop_lf s else s)
  else splitlines_aux (c :: cur) s.
Proof.
  destruct c as [[] [] [] [] [] [] [] []]; try reflexivity.
  destruct s as [|[[] [] [] [] [] [] [] []] s]; reflexivity.
Qed.

Lemma drop_lf_length (s : list ascii) :
  List.length (drop_lf s) <= List.length s.
Proof.
  destruct s as [|c s]; simpl; [lia|]. destruct (Ascii.eqb c "010"); simpl; lia.
Qed.

Lemma existsb_rev_eq {A} (f : A -> bool) (l : list A) :
  existsb f (rev l) = existsb f l.
Proof.
  induction l as [|a l IH]; simpl; [reflexivity|].
  rewrite existsb_app, IH. simpl. rewrite orb_false_r. apply orb_comm.
Qed.

Lemma has_linebreak_rev (cur : list ascii) :
  existsb is_linebreak cur = false ->
  has_linebreak (string_of_list_ascii (rev cur)) = false.
Proof.
  intros H. unfold has_linebreak.
  now rewrite list_ascii_of_string_of_list_ascii, existsb_rev_eq.
Qed.

Lemma splitlines_aux_no_break (n : nat) :
  forall s cur,
    List.length s <= n ->
    existsb is_linebreak cur = false ->
    Forall (fun l => has_linebreak l = false) (splitlines_aux cur s).
Proof.
  induction n as [|n IH]; intros s cur Hn Hcur.
  - destruct s; [|simpl in Hn; lia]. simpl.
    destruct cur; constructor; [now apply has_linebreak_rev | constructor].
  - destruct s as [|c s].
    + simpl. destruct cur; constructor; [now apply has_linebreak_rev | constructor].
    + rewrite splitlines_aux_cons. simpl in Hn.
      destruct (is_linebreak c) eqn:Ec.
      * constructor; [now apply has_linebreak_rev|].
        apply IH; [|reflexivity].
        destruct (Ascii.eqb c "013"); [|lia].
        pose proof (drop_lf_length s). lia.
      * apply IH; [lia|]. simpl. now rewrite Ec.
Qed.

(** X8: no line produced by [splitlines] holds a line boundary. *)
Theorem splitlines_lines_unbroken (s : string) :
  Forall (fun l => has_linebreak l = false) (splitlines s).
Proof.
  unfold splitlines.
  now apply (splitlines_aux_no_break (List.length (list_ascii_of_string s))).
Qed.

Lemma splitlines_aux_rest (l : list ascii) :
  forall cur,
    existsb is_linebreak l = false ->
    splitlines_aux cur l =
    match rev cur ++ l with
    | [] => []
    | _ :: _ => [string_of_list_ascii (rev cur ++ l)]
    end.
Proof.
  induction l as [|c l IH]; intros cur H.
  - simpl. rewrite app_nil_r. destruct cur as [|a cur]; [reflexivity|].
    destruct (rev (a :: cur)) eqn:E; [|reflexivity].
    apply (f_equal (@List.length ascii)) in E. rewrite length_rev in E.
    discriminate E.
  - simpl in H. apply orb_false_iff in H. destruct H as [Hc Hl].
    rewrite splitlines_aux_cons, Hc, (IH _ Hl). simpl.
    now rewrite <- app_assoc.
Qed.

Lemma splitlines_aux_line (t : string) (l rest : list ascii) :
  t = lf \/ t = crlf ->
  forall cur,
    existsb is_linebreak l = false ->
    splitlines_aux cur (l ++ list_ascii_of_string t ++ rest) =
    string_of_list_ascii (rev cur ++ l) :: splitlines_aux [] rest.
Proof.
  intros Ht. induction l as [|c l IH]; intros cur H.
  - rewrite app_nil_r. destruct Ht as [->| ->]; reflexivity.
  - simpl in H. apply orb_false_iff in H. destruct H as [Hc Hl].
    simpl app. rewrite splitlines_aux_cons, Hc, (IH _ Hl). simpl.
    now rewrite <- app_assoc.
Qed.

(** X9: a text made of lines without line boundary, each followed by a
    line feed, or each by a carriage return and a line feed, and then of a
    last part without terminator, is split into those lines and, unless it
    is empty, that last part; the script then reports on exactly these
    lines. *)
Theorem splitlines_unlines (t : string) (lines : list string) (tail : string) :
  t = lf \/ t = crlf ->
  Forall (fun l => has_linebreak l = false) lines ->
  has_linebreak tail = false ->
  splitlines (unlines t lines ++ tail)%string =
    lines ++ (match tail with EmptyString => [] | String _ _ => [tail] end) /\
  main (unlines t lines ++ tail)%string =
    scan (lines ++ match tail with EmptyString => [] | String _ _ => [tail] end).
Proof.
  intros Ht Hl Htail.
  assert (H : splitlines (unlines t lines ++ tail)%string =
              lines ++ match tail with EmptyString => [] | String _ _ => [tail] end).
  { unfold splitlines. rewrite list_ascii_of_string_app.
    induction Hl as [|l ls Hb _ IH]; cbn [unlines].
    - cbn [list_ascii_of_string app].
      rewrite (splitlines_aux_rest _ [] Htail). cbn [rev app].
      destruct tail as [|c tail]; [reflexivity|]. cbn [list_ascii_of_string].
      change (c :: list_ascii_of_string tail)
        with (list_ascii_of_string (String c tail)).
      now rewrite string_of_list_ascii_of_string.
    - rewrite !list_ascii_of_string_app, <- !app_assoc.
      rewrite (splitlines_aux_line t _ _ Ht [] Hb). cbn [rev app].
      rewrite string_of_list_ascii_of_string, IH. reflexivity. }
  split; [exact H|]. unfold main. now rewrite H.
Qed.

Lemma splitlines_unlines_witness :
  main (unlines crlf ["@if (x) {"; ""; "}"] ++ "}")%string =
    ["Unmatched closing brace at 4"; "All control blocks closed"].
Proof.
  refine (eq_trans
    (proj2 (splitlines_unlines crlf ["@if (x) {"; ""; "}"] "}" _ _ _)) _).
  - now right.
  - repeat constructor.
  - reflexivity.
  - reflexivity.
Defined.

End SplitLines.

(** ** Lines that open and close at once, and the growth of the output *)

Section EdgeBehaviour.

Local Open Scope list_scope.

(** X10: a line that matches both patterns leaves the state as it was: its
    own entry is pushed and popped at once, so it never touches the entries
    below and never prints an unmatched-brace message, not even on an
    empty stack. *)
Theorem both_patterns_neutral (i : nat) (l tok : string) (st : state) :
  open_match l = Some tok -> close_match l = true ->
  body i l st = st /\
  forall post, loop i (l :: post) st = loop (S i) post st.
Proof.
  intros Ho Hc. split; [exact (body_both i l tok st Ho Hc)|].
  intros post. simpl. now rewrite (body_both i l tok st Ho Hc).
Qed.

Lemma both_patterns_neutral_witness :
  scan ["} @else {"; "}"] =
    ["Unmatched closing brace at 2"; "All control blocks closed"].
Proof.
  unfold scan.
  rewrite (proj2 (both_patterns_neutral 1 "} @else {" "else" init
                    eq_refl eq_refl) ["}"]).
  reflexivity.
Defined.

Lemma out_grows (d : list string) :
  forall i st, exists more, out (loop i d st) = out st ++ more.
Proof.
  induction d as [|l d IH]; intros i st; simpl.
  - exists []. now rewrite app_nil_r.
  - destruct (IH (S i) (body i l st)) as (more & ->). unfold body.
    destruct (close_phase_cases i l (open_phase i l st))
      as [(_ & ->)|[(_ & _ & ->)|(_ & rest & top & _ & ->)]];
      simpl; rewrite ?out_open_phase.
    + now exists more.
    + exists (unmatched_msg i :: more). now rewrite <- app_assoc.
    + now exists more.
Qed.

(** X11: messages are only ever added: what has been printed after the
    first lines of a document is the beginning of what has been printed
    after all of them, and of the final output. *)
Theorem output_append_only (pre post : list string) :
  exists more,
    out (loop 1 (pre ++ post) init) = out (loop 1 pre init) ++ more /\
    exists final, scan (pre ++ post) = out (loop 1 pre init) ++ more ++ final.
Proof.
  rewrite loop_prefix.
  destruct (out_grows post (S (List.length pre)) (loop 1 pre init)) as (more & H).
  exists more. split; [exact H|].
  unfold scan, report. rewrite loop_prefix, H.
  destruct (stack (loop (S (List.length pre)) post (loop 1 pre init)));
    eexists; rewrite <- app_assoc; reflexivity.
Qed.

End EdgeBehaviour.
